(** * coco-pik-backend: group invitations and membership

    A shallow embedding of the request handlers of [src/index.ts] (the
    [fetch] entry point, together with its later revision that adds the
    [/g/:code] landing page) and machine-checked statements about invite
    codes, expiry and membership.

    Conventions of the embedding
    - A [Date] is its time value, milliseconds since the epoch, in [Z].
    - A JSON number of a request body is an integer in [Z]; on integers of
      that size double arithmetic is exact.  A result of [Math.random()] is
      a double, held as its mantissa and exponent, and its product with the
      length of the alphabet is rounded as IEEE 754 rounds it.
    - The database is a record of three row lists.  A [create] appends a row
      and throws when a primary key, a unique index or a foreign key of the
      migration would be violated; the identifier given to a new row and
      the clock are supplied by the runtime ([Runtime]).
    - The columns [createdAt], [updatedAt] and [joinedAt] are left out: no
      handler embedded here reads them.
    - Each route body is a function of what the router takes from the
      path; [fetch] is the router itself, over the method, [url.pathname]
      and the parsed JSON body.  Response headers other than the content
      type are left out. *)

From Stdlib Require Import ZArith List String Ascii Bool Lia.
From Stdlib Require Import Permutation Sorted SpecFloat.
Import ListNotations.

Local Open Scope string_scope.
Local Open Scope Z_scope.

(** ** Rows and the store *)

Record User := mkUser {
  user_id : string;
  user_deviceToken : string;
  user_name : option string
}.

Record Group := mkGroup {
  group_id : string;
  group_inviteCode : string;
  group_modelId : string;
  group_creatorId : string;
  group_title : option string;
  group_description : option string;
  group_expiresAt : option Z
}.

Record GroupMember := mkGroupMember {
  member_id : string;
  member_userId : string;
  member_groupId : string
}.

Record Store := mkStore {
  users : list User;
  groups : list Group;
  groupMembers : list GroupMember
}.

Definition emptyStore : Store := mkStore [] [] [].

(** Query results with their loaded relations. *)
Record UserRef := mkUserRef {
  ref_id : string;
  ref_name : option string
}.

Record GroupWithMembers := mkGroupWithMembers {
  gm_group : Group;
  gm_creator : option UserRef;
  gm_members : list GroupMember
}.

Record GroupWithUsers := mkGroupWithUsers {
  gu_group : Group;
  gu_creator : option UserRef;
  gu_members : list (GroupMember * option UserRef)
}.

(** ** Doubles *)

(** A finite double that is not negative: the number
    [mantissa * 2 ^ exponent]. *)
Record Double := mkDouble {
  mantissa : Z;
  exponent : Z
}.

(** The double nearest to [m * 2 ^ e], for [m] not negative: IEEE 754
    binary64 rounding to nearest, ties to the even mantissa, with 53 bits of
    precision and least exponent -1074.  (No overflow arises on the numbers
    handled here.) *)
Definition roundDouble (m e : Z) : Double :=
  let shift := Z.max (Z.log2 m + 1 - 53) (-1074 - e) in
  if shift <=? 0 then mkDouble m e
  else
    let q := m / 2 ^ shift in
    let r := m mod 2 ^ shift in
    let half := 2 ^ (shift - 1) in
    let q' := if (half <? r) || ((half =? r) && Z.odd q) then q + 1 else q in
    if q' =? 2 ^ 53 then mkDouble (2 ^ 52) (e + shift + 1)
    else mkDouble q' (e + shift).

(** [x * y] for a double [x] and an integer [y] that is a double itself. *)
Definition mulDouble (x : Double) (y : Z) : Double :=
  roundDouble (mantissa x * y) (exponent x).

(** [Math.floor(x)] *)
Definition floorDouble (x : Double) : Z :=
  Z.shiftl (mantissa x) (exponent x).

(** The same number as a float of the Standard Library's specification of
    IEEE 754 arithmetic. *)
Definition toSpecFloat (x : Double) : spec_float :=
  match mantissa x with
  | Z.pos p => S754_finite false p (exponent x)
  | _ => S754_zero false
  end.

(** What the runtime supplies while one request is served: the clock
    ([Date.now()], [new Date()]; each handler reads it once), the successive
    results of [Math.random()], and the identifiers Prisma gives to the rows
    the handler creates (at most one per table). *)
Record Runtime := mkRuntime {
  now : Z;
  random : nat -> Double;
  newUserId : string;
  newGroupId : string;
  newMemberId : string
}.

(** ** A state and exception monad for store calls *)

Inductive Outcome (A : Type) : Type :=
| Returned (a : A)
| Thrown (e : string).
Arguments Returned {A} a.
Arguments Thrown {A} e.

Definition Prisma (A : Type) : Type := Store -> Outcome A * Store.

Definition ret {A} (a : A) : Prisma A := fun s => (Returned a, s).

Definition throw {A} (e : string) : Prisma A := fun s => (Thrown e, s).

Definition bind {A B} (m : Prisma A) (k : A -> Prisma B) : Prisma B :=
  fun s =>
    match m s with
    | (Returned a, s') => k a s'
    | (Thrown e, s') => (Thrown e, s')
    end.

Notation "x <- m ;; k" := (bind m (fun x => k))
  (at level 61, m at next level, right associativity).
Notation "m ;;; k" := (bind m (fun _ => k))
  (at level 61, right associativity).

(** ** JavaScript dates *)

(** The time value a [Date] may hold (ECMAScript TimeClip): beyond
    8.64e15 ms the [Date] is invalid. *)
Definition maxTime : Z := 8640000000000000.

Inductive JsDate : Type :=
| ValidDate (t : Z)
| InvalidDate.

(** [new Date(value)] *)
Definition newDate (value : Z) : JsDate :=
  if Z.abs value <=? maxTime then ValidDate value else InvalidDate.

(** The first and the last millisecond of the years 0000 to 9999:
    0000-01-01T00:00:00.000Z and 9999-12-31T23:59:59.999Z. *)
Definition minStoredTime : Z := -62167219200000.
Definition maxStoredTime : Z := 253402300799999.

(** ** The Prisma client calls the handlers make *)

Module Prisma_client.

Definition user_by_token (deviceToken : string) (u : User) : bool :=
  String.eqb (user_deviceToken u) deviceToken.

Definition user_by_id (id : string) (u : User) : bool :=
  String.eqb (user_id u) id.

Definition group_by_code (inviteCode : string) (g : Group) : bool :=
  String.eqb (group_inviteCode g) inviteCode.

Definition group_by_id (id : string) (g : Group) : bool :=
  String.eqb (group_id g) id.

Definition member_by_id (id : string) (m : GroupMember) : bool :=
  String.eqb (member_id m) id.

Definition member_by_pair (userId groupId : string) (m : GroupMember) : bool :=
  String.eqb (member_userId m) userId && String.eqb (member_groupId m) groupId.

Definition member_of_group (groupId : string) (m : GroupMember) : bool :=
  String.eqb (member_groupId m) groupId.

(** [prisma.user.findUnique({ where: { deviceToken } })] *)
Definition user_findUnique (deviceToken : string) : Prisma (option User) :=
  fun s => (Returned (find (user_by_token deviceToken) (users s)), s).

(** [prisma.user.create({ data: { deviceToken } })]: primary key [id],
    unique index on [deviceToken]. *)
Definition user_create (id deviceToken : string) : Prisma User :=
  fun s =>
    if existsb (user_by_id id) (users s)
       || existsb (user_by_token deviceToken) (users s)
    then (Thrown "Unique constraint failed", s)
    else
      let u := mkUser id deviceToken None in
      (Returned u, mkStore (users s ++ [u]) (groups s) (groupMembers s)).

(** [prisma.group.findUnique({ where: { inviteCode } })]: a read, given
    here as the row it returns. *)
Definition group_findUnique (inviteCode : string) (s : Store) : option Group :=
  find (group_by_code inviteCode) (groups s).

(** The [members] relation loaded by [include: { members: ... }]. *)
Definition group_members (g : Group) (s : Store) : list GroupMember :=
  filter (member_of_group (group_id g)) (groupMembers s).

(** [select: { id: true, name: true }] *)
Definition select_id_name (u : User) : UserRef :=
  mkUserRef (user_id u) (user_name u).

(** The [creator] relation loaded by [include: { creator: ... }]. *)
Definition group_creator (g : Group) (s : Store) : option UserRef :=
  option_map select_id_name (find (user_by_id (group_creatorId g)) (users s)).

(** The [user] relation of a membership row. *)
Definition member_user (m : GroupMember) (s : Store) : option UserRef :=
  option_map select_id_name (find (user_by_id (member_userId m)) (users s)).

(** [prisma.group.findUnique({ where: { inviteCode },
      include: { creator: { select: ... }, members: true } })] *)
Definition group_findUnique_include (inviteCode : string)
  : Prisma (option GroupWithMembers) :=
  fun s =>
    (Returned
       (option_map
          (fun g => mkGroupWithMembers g (group_creator g s) (group_members g s))
          (group_findUnique inviteCode s)), s).

(** [prisma.group.findUnique({ where: { inviteCode },
      include: { creator: { select: ... },
                 members: { include: { user: { select: ... } } } } })] *)
Definition group_findUnique_include_users (inviteCode : string)
  : Prisma (option GroupWithUsers) :=
  fun s =>
    (Returned
       (option_map
          (fun g =>
             mkGroupWithUsers g (group_creator g s)
               (map (fun m => (m, member_user m s)) (group_members g s)))
          (group_findUnique inviteCode s)), s).

(** The [DateTime] values the client takes: [null], or a valid [Date] of
    the years 0000 to 9999; it refuses an invalid [Date] and a [Date] whose
    year lies outside that range. *)
Definition storableDate (d : option JsDate) : bool :=
  match d with
  | None => true
  | Some (ValidDate t) => (minStoredTime <=? t) && (t <=? maxStoredTime)
  | Some InvalidDate => false
  end.

(** [prisma.group.create({ data: { ... } })]: primary key [id], unique index
    on [inviteCode], foreign key [creatorId]; a [Date] the client does not
    take makes the call throw before anything is written. *)
Definition group_create (id inviteCode modelId creatorId : string)
    (title description : option string) (expiresAt : option JsDate)
  : Prisma Group :=
  fun s =>
    if negb (storableDate expiresAt)
    then (Thrown "Invalid value provided for expiresAt", s)
    else if existsb (group_by_id id) (groups s)
            || existsb (group_by_code inviteCode) (groups s)
    then (Thrown "Unique constraint failed", s)
    else if negb (existsb (user_by_id creatorId) (users s))
    then (Thrown "Foreign key constraint failed", s)
    else
      let g := mkGroup id inviteCode modelId creatorId title description
                 (match expiresAt with
                  | Some (ValidDate t) => Some t
                  | _ => None
                  end) in
      (Returned g, mkStore (users s) (groups s ++ [g]) (groupMembers s)).

(** [prisma.groupMember.findUnique({ where: { userId_groupId } })] *)
Definition groupMember_findUnique (userId groupId : string)
  : Prisma (option GroupMember) :=
  fun s => (Returned (find (member_by_pair userId groupId) (groupMembers s)), s).

(** [prisma.groupMember.create({ data: { userId, groupId } })]: primary key
    [id], unique index on [(userId, groupId)], foreign keys to both tables. *)
Definition groupMember_create (id userId groupId : string)
  : Prisma GroupMember :=
  fun s =>
    if existsb (member_by_id id) (groupMembers s)
       || existsb (member_by_pair userId groupId) (groupMembers s)
    then (Thrown "Unique constraint failed", s)
    else if negb (existsb (user_by_id userId) (users s))
            || negb (existsb (group_by_id groupId) (groups s))
    then (Thrown "Foreign key constraint failed", s)
    else
      let m := mkGroupMember id userId groupId in
      (Returned m, mkStore (users s) (groups s) (groupMembers s ++ [m])).

End Prisma_client.
Import Prisma_client.

(** ** Helpers of [index.ts] *)

(** [String.prototype.charAt]: the empty string outside the string. *)
Definition charAt (s : string) (i : Z) : string :=
  if i <? 0 then ""
  else match String.get (Z.to_nat i) s with
       | Some c => String c EmptyString
       | None => ""
       end.

Definition chars : string := "abcdefghijklmnopqrstuvwxyz0123456789".

(** [Math.floor(Math.random() * chars.length)], for the [k]-th draw. *)
Definition randomIndex (rnd : nat -> Double) (k : nat) : Z :=
  floorDouble (mulDouble (rnd k) (Z.of_nat (String.length chars))).

(** The [for] loop of [generateInviteCode], [n] rounds left, the next draw
    being the [k]-th. *)
Fixpoint generateInviteCode_loop (n : nat) (rnd : nat -> Double) (k : nat)
    (result : string) : string :=
  match n with
  | O => result
  | S n' =>
    generateInviteCode_loop n' rnd (S k)
      (result ++ charAt chars (randomIndex rnd k))
  end.

Definition generateInviteCode (rnd : nat -> Double) (k : nat) : string :=
  generateInviteCode_loop 8 rnd k "".

(** [ensureUser(prisma, deviceToken)] *)
Definition ensureUser (rt : Runtime) (deviceToken : string) : Prisma User :=
  user <- user_findUnique deviceToken ;;
  match user with
  | Some u => ret u
  | None => user_create (newUserId rt) deviceToken
  end.

(** ** Requests and responses *)

Record CreateGroupRequest := mkCreateGroupRequest {
  cr_deviceToken : option string;
  cr_modelId : option string;
  cr_title : option string;
  cr_description : option string;
  cr_expirationHours : option Z
}.

Record JoinGroupRequest := mkJoinGroupRequest {
  jr_deviceToken : option string
}.

Record CreateGroupResponse := mkCreateGroupResponse {
  cg_groupId : string;
  cg_inviteCode : string;
  cg_inviteUrl : string;
  cg_modelId : string;
  cg_title : option string;
  cg_description : option string;
  cg_expiresAt : option Z;
  cg_memberCount : Z
}.

Record JoinGroupResponse := mkJoinGroupResponse {
  jg_success : bool;
  jg_groupId : string;
  jg_modelId : string;
  jg_title : option string;
  jg_description : option string;
  jg_memberCount : Z;
  jg_message : string
}.

Record GroupDetailsResponse := mkGroupDetailsResponse {
  gd_groupId : string;
  gd_inviteCode : string;
  gd_modelId : string;
  gd_title : option string;
  gd_description : option string;
  gd_creator : option UserRef;
  gd_expiresAt : option Z;
  gd_memberCount : Z;
  gd_members : list (option UserRef)
}.

(** The three HTML documents of the [/g/:code] route, by what they
    interpolate; the markup around it is constant text. *)
Inductive Page : Type :=
| GroupNotFoundPage
| InvitationExpiredPage
| GroupLandingPage (title : string) (description : option string)
    (modelId : string) (creatorName : string) (memberNames : list string).

Inductive Body : Type :=
| ErrorBody (error : string)
| CreateGroupBody (r : CreateGroupResponse)
| JoinGroupBody (r : JoinGroupResponse)
| GroupDetailsBody (r : GroupDetailsResponse)
| HtmlBody (p : Page).

Record Response := mkResponse {
  status : Z;
  contentType : string;
  payload : Body
}.

(** [jsonResponse(data, status = 200)] *)
Definition jsonResponse (data : Body) (status : Z) : Response :=
  mkResponse status "application/json" data.

(** [errorResponse(message, status = 400)] *)
Definition errorResponse (message : string) (status : Z) : Response :=
  jsonResponse (ErrorBody message) status.

(** [new Response(html, { headers: { 'Content-Type': 'text/html' } })]: no
    status is given, so the response has the default one, 200. *)
Definition htmlResponse (p : Page) : Response :=
  mkResponse 200 "text/html" (HtmlBody p).

(** The [try { ... } catch (error) { ... }] around every route. *)
Definition try_catch (m : Prisma Response) (s : Store) : Response * Store :=
  match m s with
  | (Returned r, s') => (r, s')
  | (Thrown _, s') => (errorResponse "Internal server error" 500, s')
  end.

(** ** JavaScript truthiness of the values the handlers test *)

(** A string field of the body: [undefined] and [''] are falsy. *)
Definition truthy (o : option string) : bool :=
  match o with
  | Some s => negb (String.eqb s "")
  | None => false
  end.

Definition str (o : option string) : string :=
  match o with
  | Some s => s
  | None => ""
  end.

(** [value || fallback] on an optional string. *)
Definition orElse (o : option string) (fallback : string) : string :=
  if truthy o then str o else fallback.

(** The test [group.expiresAt && group.expiresAt < new Date()] that the
    join, details and landing-page routes make (the route classes call it
    [isGroupExpired]): a [Date] object is truthy, [null] is not. *)
Definition isGroupExpired (expiresAt : option Z) (current : Z) : bool :=
  match expiresAt with
  | Some t => t <? current
  | None => false
  end.

(** ** Route: POST /api/groups *)

(** The [do { ... } while (!isUnique)] loop; the [k]-th draw is the next
    one.  [fuel] bounds the rounds the model runs; the source has no bound. *)
Fixpoint uniqueInviteCode (fuel : nat) (rnd : nat -> Double) (k : nat) (s : Store)
  : option string :=
  match fuel with
  | O => None
  | S fuel' =>
    let inviteCode := generateInviteCode rnd k in
    match group_findUnique inviteCode s with
    | None => Some inviteCode
    | Some _ => uniqueInviteCode fuel' rnd (k + 8)%nat s
    end
  end.

(** [body.expirationHours ? new Date(Date.now() + hours * 60 * 60 * 1000) : null] *)
Definition computeExpiresAt (rt : Runtime) (expirationHours : option Z)
  : option JsDate :=
  match expirationHours with
  | Some h => if h =? 0 then None
              else Some (newDate (now rt + h * 60 * 60 * 1000))
  | None => None
  end.

(** [JSON.stringify] of [expiresAt]: an invalid [Date] prints as [null]. *)
Definition dateJson (d : option JsDate) : option Z :=
  match d with
  | Some (ValidDate t) => Some t
  | _ => None
  end.

(** From the accepted invite code to the response. *)
Definition createGroup_store (rt : Runtime) (body : CreateGroupRequest)
    (user : User) (inviteCode : string) : Prisma Response :=
  let expiresAt := computeExpiresAt rt (cr_expirationHours body) in
  group <- group_create (newGroupId rt) inviteCode (str (cr_modelId body))
             (user_id user) (cr_title body) (cr_description body) expiresAt ;;
  groupMember_create (newMemberId rt) (user_id user) (group_id group) ;;;
  ret (jsonResponse
         (CreateGroupBody
            (mkCreateGroupResponse (group_id group) inviteCode
               ("https://coco.co/g/" ++ inviteCode) (str (cr_modelId body))
               (cr_title body) (cr_description body) (dateJson expiresAt) 1))
         201).

(** [None]: the invite-code loop is still running after [fuel] rounds. *)
Definition createGroup (fuel : nat) (rt : Runtime) (body : CreateGroupRequest)
    (s : Store) : option (Response * Store) :=
  if negb (truthy (cr_deviceToken body)) || negb (truthy (cr_modelId body))
  then Some (errorResponse "deviceToken and modelId are required" 400, s)
  else
    match ensureUser rt (str (cr_deviceToken body)) s with
    | (Thrown _, s1) => Some (errorResponse "Internal server error" 500, s1)
    | (Returned user, s1) =>
      match uniqueInviteCode fuel (random rt) 0 s1 with
      | None => None
      | Some inviteCode =>
        Some (try_catch (createGroup_store rt body user inviteCode) s1)
      end
    end.

(** ** Route: POST /api/groups/:code/join *)

Definition joinGroup (rt : Runtime) (inviteCode : string)
    (body : JoinGroupRequest) : Store -> Response * Store :=
  try_catch
    (if negb (truthy (jr_deviceToken body))
     then ret (errorResponse "deviceToken is required" 400)
     else
       user <- ensureUser rt (str (jr_deviceToken body)) ;;
       group <- group_findUnique_include inviteCode ;;
       match group with
       | None => ret (errorResponse "Group not found" 404)
       | Some group =>
         if isGroupExpired (group_expiresAt (gm_group group)) (now rt)
         then ret (errorResponse "Group invitation has expired" 410)
         else
           existingMembership <-
             groupMember_findUnique (user_id user) (group_id (gm_group group)) ;;
           match existingMembership with
           | Some _ =>
             ret (errorResponse "User is already a member of this group" 400)
           | None =>
             groupMember_create (newMemberId rt) (user_id user)
               (group_id (gm_group group)) ;;;
             ret (jsonResponse
                    (JoinGroupBody
                       (mkJoinGroupResponse true (group_id (gm_group group))
                          (group_modelId (gm_group group))
                          (group_title (gm_group group))
                          (group_description (gm_group group))
                          (Z.of_nat (List.length (gm_members group)) + 1)
                          "Successfully joined the group"))
                    200)
           end
       end).

(** ** Route: GET /api/groups/:code *)

Definition getGroupDetails (rt : Runtime) (inviteCode : string)
  : Store -> Response * Store :=
  try_catch
    (group <- group_findUnique_include_users inviteCode ;;
     match group with
     | None => ret (errorResponse "Group not found" 404)
     | Some group =>
       if isGroupExpired (group_expiresAt (gu_group group)) (now rt)
       then ret (errorResponse "Group invitation has expired" 410)
       else
         ret (jsonResponse
                (GroupDetailsBody
                   (mkGroupDetailsResponse (group_id (gu_group group))
                      (group_inviteCode (gu_group group))
                      (group_modelId (gu_group group))
                      (group_title (gu_group group))
                      (group_description (gu_group group))
                      (gu_creator group)
                      (group_expiresAt (gu_group group))
                      (Z.of_nat (List.length (gu_members group)))
                      (map snd (gu_members group))))
                200)
     end).

(** ** Route: GET /g/:code (the revision of [fetch] with the landing page) *)

Definition groupLandingPage (rt : Runtime) (inviteCode : string)
  : Store -> Response * Store :=
  try_catch
    (group <- group_findUnique_include_users inviteCode ;;
     match group with
     | None => ret (htmlResponse GroupNotFoundPage)
     | Some group =>
       if isGroupExpired (group_expiresAt (gu_group group)) (now rt)
       then ret (htmlResponse InvitationExpiredPage)
       else
         match gu_creator group with
         | None => throw "TypeError"
         | Some creator =>
           if forallb (fun m => match snd m with Some _ => true | None => false end)
                (gu_members group)
           then
             ret (htmlResponse
                    (GroupLandingPage
                       (orElse (group_title (gu_group group)) "Join Group")
                       (if truthy (group_description (gu_group group))
                        then group_description (gu_group group) else None)
                       (group_modelId (gu_group group))
                       (orElse (ref_name creator) "Anonymous")
                       (map (fun m =>
                               match snd m with
                               | Some u => orElse (ref_name u) "Anonymous"
                               | None => "Anonymous"
                               end) (gu_members group))))
           else throw "TypeError"
         end
     end).

(** ** Vocabulary of the statements *)

(** The alphabet as the specification words it: a lowercase letter [a]-[z]
    or a digit [0]-[9]. *)
Definition is_lower_or_digit (c : ascii) : bool :=
  let n := nat_of_ascii c in
  ((97 <=? n) && (n <=? 122) || (48 <=? n) && (n <=? 57))%nat.

Fixpoint forall_chars (p : ascii -> bool) (s : string) : bool :=
  match s with
  | EmptyString => true
  | String c s' => p c && forall_chars p s'
  end.

(** A double of the interval [0, 1): zero, or a mantissa of at most 53 bits
    that stays below [2 ^ - exponent]. *)
Definition unitDouble (x : Double) : bool :=
  (0 <=? mantissa x) && (mantissa x <? 2 ^ 53) && (-1074 <=? exponent x)
  && ((mantissa x =? 0)
      || ((exponent x <? 0) && (mantissa x <? 2 ^ (- exponent x)))).

(** The contract of [Math.random()] on the draws [k], ..., [k + n - 1]. *)
Definition draws_in_unit (rnd : nat -> Double) (k n : nat) : Prop :=
  forall j, (k <= j < k + n)%nat -> unitDouble (rnd j) = true.

(** The code generated in round [n] of the loop (rounds count from 0). *)
Definition attempt (rnd : nat -> Double) (k n : nat) : string :=
  generateInviteCode rnd (k + 8 * n).

(** No stored group bears [inviteCode]. *)
Definition code_unused (inviteCode : string) (s : Store) : Prop :=
  forall g, In g (groups s) -> group_inviteCode g <> inviteCode.

(** An 8-character code over [a-z0-9]. *)
Definition in_code_space (code : string) : Prop :=
  String.length code = 8%nat /\ forall_chars is_lower_or_digit code = true.

(** The position of [c] in [s] (its length when [c] is absent). *)
Fixpoint index_in (c : ascii) (s : string) : nat :=
  match s with
  | EmptyString => O
  | String d s' => if Ascii.eqb c d then O else S (index_in c s')
  end.

(** A draw of the interval [[i / 36, (i + 1) / 36)]: the multiple of
    [2 ^ -12] next below its middle. *)
Definition drawOfIndex (i : nat) : Double :=
  mkDouble ((2 * Z.of_nat i + 1) * 4096 / 72) (-12).

(** Draws that spell [code] from the [k]-th draw on: the draw for a
    character at position [i] of the alphabet is [drawOfIndex i]. *)
Definition draws_for (code : string) (k : nat) (j : nat) : Double :=
  match String.get (j - k) code with
  | Some c => drawOfIndex (index_in c chars)
  | None => mkDouble 0 0
  end.


(** The generated identifiers are not yet primary keys: no [create] of the
    request is refused for its [id]. *)
Definition ids_fresh (rt : Runtime) (s : Store) : Prop :=
  existsb (user_by_id (newUserId rt)) (users s) = false
  /\ existsb (group_by_id (newGroupId rt)) (groups s) = false
  /\ existsb (member_by_id (newMemberId rt)) (groupMembers s) = false.

(** The user a device token resolves to: the stored one, or the one
    [ensureUser] is about to create. *)
Definition resolvedUser (rt : Runtime) (deviceToken : string) (s : Store) : User :=
  match find (user_by_token deviceToken) (users s) with
  | Some u => u
  | None => mkUser (newUserId rt) deviceToken None
  end.

Definition joinedResponse (g : Group) (members : list GroupMember) : Response :=
  jsonResponse
    (JoinGroupBody
       (mkJoinGroupResponse true (group_id g) (group_modelId g) (group_title g)
          (group_description g) (Z.of_nat (List.length members) + 1)
          "Successfully joined the group"))
    200.

Definition internalError : Response :=
  errorResponse "Internal server error" 500.

(** The status of a join as the specification orders it: a missing device
    token, then an unknown invite code, then an expired group, then an
    existing membership of the resolved user, then success. *)
Definition claimed_join_status (rt : Runtime) (inviteCode : string)
    (body : JoinGroupRequest) (s : Store) : Z :=
  if negb (truthy (jr_deviceToken body)) then 400
  else
    match group_findUnique inviteCode s with
    | None => 404
    | Some g =>
      if isGroupExpired (group_expiresAt g) (now rt) then 410
      else if existsb
                (member_by_pair
                   (user_id (resolvedUser rt (str (jr_deviceToken body)) s))
                   (group_id g))
                (groupMembers s)
      then 400
      else 200
    end.

(** The 200 answer of the details route. *)
Definition detailsResponse (g : Group) (s : Store) : Response :=
  jsonResponse
    (GroupDetailsBody
       (mkGroupDetailsResponse (group_id g) (group_inviteCode g)
          (group_modelId g) (group_title g) (group_description g)
          (group_creator g s) (group_expiresAt g)
          (Z.of_nat (List.length (group_members g s)))
          (map (fun m => member_user m s) (group_members g s))))
    200.

Definition expiredResponse : Response :=
  errorResponse "Group invitation has expired" 410.

(** [expiresAt] is set and strictly before [current]. *)
Definition set_and_past (expiresAt : option Z) (current : Z) : Prop :=
  exists t, expiresAt = Some t /\ t < current.

(** The document of the landing page for a live group; reading [name] of a
    missing creator or member user throws, which the route turns into the
    500 answer. *)
Definition landingResponse (g : Group) (s : Store) : Response :=
  match group_creator g s with
  | None => internalError
  | Some creator =>
    if forallb (fun m => match member_user m s with
                         | Some _ => true
                         | None => false
                         end) (group_members g s)
    then htmlResponse
           (GroupLandingPage (orElse (group_title g) "Join Group")
              (if truthy (group_description g) then group_description g
               else None)
              (group_modelId g) (orElse (ref_name creator) "Anonymous")
              (map (fun m => match member_user m s with
                             | Some u => orElse (ref_name u) "Anonymous"
                             | None => "Anonymous"
                             end) (group_members g s)))
    else internalError
  end.

(** Foreign key of [GroupMember.groupId]: every membership row names a
    stored group. *)
Definition members_in_groups (s : Store) : Prop :=
  forall m, In m (groupMembers s) ->
    existsb (group_by_id (member_groupId m)) (groups s) = true.

(** The row [prisma.group.create] stores for a request. *)
Definition createdGroup (rt : Runtime) (body : CreateGroupRequest)
    (user : User) (inviteCode : string) : Group :=
  mkGroup (newGroupId rt) inviteCode (str (cr_modelId body)) (user_id user)
    (cr_title body) (cr_description body)
    (dateJson (computeExpiresAt rt (cr_expirationHours body))).

(** The 201 answer of the create route. *)
Definition createdResponse (rt : Runtime) (body : CreateGroupRequest)
    (inviteCode : string) : Response :=
  jsonResponse
    (CreateGroupBody
       (mkCreateGroupResponse (newGroupId rt) inviteCode
          ("https://coco.co/g/" ++ inviteCode) (str (cr_modelId body))
          (cr_title body) (cr_description body)
          (dateJson (computeExpiresAt rt (cr_expirationHours body))) 1))
    201.

(** ** The constraints of the schema, as an invariant of the store *)

Definition member_pair (m : GroupMember) : string * string :=
  (member_userId m, member_groupId m).

Record Consistent (s : Store) : Prop := mkConsistent {
  users_id_unique : NoDup (map user_id (users s));
  users_token_unique : NoDup (map user_deviceToken (users s));
  groups_id_unique : NoDup (map group_id (groups s));
  groups_code_unique : NoDup (map group_inviteCode (groups s));
  members_id_unique : NoDup (map member_id (groupMembers s));
  members_pair_unique : NoDup (map member_pair (groupMembers s));
  groups_creator_fk :
    forall g, In g (groups s) ->
      existsb (user_by_id (group_creatorId g)) (users s) = true;
  members_user_fk :
    forall m, In m (groupMembers s) ->
      existsb (user_by_id (member_userId m)) (users s) = true;
  members_group_fk : members_in_groups s
}.

(** The stores the two writing routes can produce from the empty one. *)
Inductive Reachable : Store -> Prop :=
| reach_empty : Reachable emptyStore
| reach_create fuel rt body s resp s' :
    Reachable s ->
    createGroup fuel rt body s = Some (resp, s') ->
    Reachable s'
| reach_join rt inviteCode body s resp s' :
    Reachable s ->
    joinGroup rt inviteCode body s = (resp, s') ->
    Reachable s'.

(** ** Sample data for the examples *)

Definition alice : User := mkUser "u-alice" "token-alice" None.
Definition bob : User := mkUser "u-bob" "token-bob" (Some "Bob").

(** A group of Alice's that expires at time 1000. *)
Definition picnic : Group :=
  mkGroup "g-picnic" "aaaaaaaa" "model-1" "u-alice" (Some "Picnic") None
    (Some 1000).

Definition sampleStore : Store :=
  mkStore [alice; bob] [picnic] [mkGroupMember "m-1" "u-alice" "g-picnic"].

(** Draws 0/8, 1/8, ..., 7/8, repeated. *)
Definition sampleRandom (j : nat) : Double :=
  mkDouble (Z.of_nat (j mod 8)) (-3).


(** The digit of weight [36 ^ (7 - p)] of [n] written in base 36. *)
Definition codeDigit (n p : nat) : nat :=
  Z.to_nat ((Z.of_nat n / 36 ^ (7 - Z.of_nat p)) mod 36).

(** Draws that spell, in round [n], the number [n] in base 36 with the
    characters of the alphabet as digits: every code comes up. *)
Definition countingRandom (j : nat) : Double :=
  drawOfIndex (codeDigit (j / 8) (j mod 8)).

Definition sampleRuntime (t : Z) : Runtime :=
  mkRuntime t sampleRandom "u-new" "g-new" "m-new".

Definition joinAs (deviceToken : string) : JoinGroupRequest :=
  mkJoinGroupRequest (Some deviceToken).

Definition createAs (deviceToken : string) (expirationHours : option Z)
  : CreateGroupRequest :=
  mkCreateGroupRequest (Some deviceToken) (Some "model-1") None None
    expirationHours.

(** ** Routes: GET /api/users/:deviceToken/groups and .../created-groups *)

(** One element of [groups] in the answer of [/groups] ([joinedAt] is a
    column left out). *)
Record UserGroupEntry := mkUserGroupEntry {
  ug_groupId : string;
  ug_modelId : string;
  ug_inviteCode : string;
  ug_title : option string;
  ug_description : option string;
  ug_creator : option UserRef;
  ug_expiresAt : option Z;
  ug_memberCount : Z;
  ug_members : list (option UserRef)
}.

(** One element of [groups] in the answer of [/created-groups]
    ([createdAt] is a column left out). *)
Record CreatedGroupEntry := mkCreatedGroupEntry {
  cl_groupId : string;
  cl_inviteCode : string;
  cl_modelId : string;
  cl_title : option string;
  cl_description : option string;
  cl_expiresAt : option Z;
  cl_memberCount : Z;
  cl_members : list (option UserRef)
}.

(** The bodies [fetch] can answer with: those of the routes above, the two
    lists, the API description of [GET /] (constant text) and the [null]
    body of the CORS preflight. *)
Inductive FetchBody : Type :=
| RouteBody (b : Body)
| UserGroupsBody (groups : list UserGroupEntry)
| CreatedGroupsBody (groups : list CreatedGroupEntry)
| ApiInfoBody
| NullBody.

Record FetchResponse := mkFetchResponse {
  fr_status : Z;
  fr_contentType : option string;
  fr_body : FetchBody
}.

Definition ofResponse (r : Response) : FetchResponse :=
  mkFetchResponse (status r) (Some (contentType r)) (RouteBody (payload r)).

(** [jsonResponse(data, status = 200)], for the bodies added here. *)
Definition jsonFetchResponse (data : FetchBody) (status : Z) : FetchResponse :=
  mkFetchResponse status (Some "application/json") data.

(** The [try { ... } catch (error) { ... }] of [fetch], at this type. *)
Definition try_catch_fetch (m : Prisma FetchResponse) (s : Store)
  : FetchResponse * Store :=
  match m s with
  | (Returned r, s') => (r, s')
  | (Thrown _, s') => (ofResponse (errorResponse "Internal server error" 500), s')
  end.

(** The test of a membership row for its [userId]. *)
Definition member_of_user (userId : string) (m : GroupMember) : bool :=
  String.eqb (member_userId m) userId.

(** A row put into a list ordered by [groupId], before the rows whose
    [groupId] is not less (strings compare byte by byte). *)
Fixpoint insertByGroupId (m : GroupMember) (l : list GroupMember)
  : list GroupMember :=
  match l with
  | [] => [m]
  | x :: l' =>
    if String.ltb (member_groupId x) (member_groupId m)
    then x :: insertByGroupId m l'
    else m :: l
  end.

Definition sortByGroupId (l : list GroupMember) : list GroupMember :=
  fold_right insertByGroupId [] l.

(** The [memberships] relation of a user.  The database answers the query
    for the rows of one [userId] from the unique index on
    [(userId, groupId)]: they come in the order of their [groupId]. *)
Definition user_memberships (u : User) (s : Store) : list GroupMember :=
  sortByGroupId (filter (member_of_user (user_id u)) (groupMembers s)).

(** The order of the rows of [user_memberships]: no row has a [groupId]
    less than that of a row before it. *)
Definition byGroupId (a b : GroupMember) : Prop :=
  String.ltb (member_groupId b) (member_groupId a) = false.

(** The [createdGroups] relation of a user. *)
Definition user_createdGroups (u : User) (s : Store) : list Group :=
  filter (fun g => String.eqb (group_creatorId g) (user_id u)) (groups s).

(** The [group] relation of a membership row. *)
Definition member_group (m : GroupMember) (s : Store) : option Group :=
  find (group_by_id (member_groupId m)) (groups s).

(** The projection of one membership in [user.memberships.map(...)];
    [None] when [membership.group] is missing, where reading its [id]
    throws. *)
Definition userGroupEntry (s : Store) (membership : GroupMember)
  : option UserGroupEntry :=
  match member_group membership s with
  | Some g =>
    Some (mkUserGroupEntry (group_id g) (group_modelId g) (group_inviteCode g)
            (group_title g) (group_description g) (group_creator g s)
            (group_expiresAt g)
            (Z.of_nat (List.length (group_members g s)))
            (map (fun m => member_user m s) (group_members g s)))
  | None => None
  end.

(** The projection of one group in [user.createdGroups.map(...)]. *)
Definition createdGroupEntry (s : Store) (g : Group) : CreatedGroupEntry :=
  mkCreatedGroupEntry (group_id g) (group_inviteCode g) (group_modelId g)
    (group_title g) (group_description g) (group_expiresAt g)
    (Z.of_nat (List.length (group_members g s)))
    (map (fun m => member_user m s) (group_members g s)).

(** All the elements, or [None] if one is missing. *)
Fixpoint allSome {A : Type} (l : list (option A)) : option (list A) :=
  match l with
  | [] => Some []
  | None :: _ => None
  | Some a :: l' =>
    match allSome l' with
    | Some r => Some (a :: r)
    | None => None
    end
  end.

(** The body of the route [GET /api/users/:deviceToken/groups]. *)
Definition getUserGroups (deviceToken : string) : Store -> FetchResponse * Store :=
  try_catch_fetch
    (user <- user_findUnique deviceToken ;;
     match user with
     | None => ret (ofResponse (errorResponse "User not found" 404))
     | Some user =>
       fun s =>
         match allSome (map (userGroupEntry s) (user_memberships user s)) with
         | Some groups => ret (jsonFetchResponse (UserGroupsBody groups) 200) s
         | None => throw "TypeError" s
         end
     end).

(** The body of the route [GET /api/users/:deviceToken/created-groups]. *)
Definition getUserCreatedGroups (deviceToken : string)
  : Store -> FetchResponse * Store :=
  try_catch_fetch
    (user <- user_findUnique deviceToken ;;
     match user with
     | None => ret (ofResponse (errorResponse "User not found" 404))
     | Some user =>
       fun s =>
         ret (jsonFetchResponse
                (CreatedGroupsBody
                   (map (createdGroupEntry s) (user_createdGroups user s)))
                200) s
     end).

(** ** The router of [fetch] *)

(** [s.startsWith(searchString)] *)
Fixpoint startsWith (s searchString : string) {struct searchString} : bool :=
  match searchString with
  | EmptyString => true
  | String a searchString' =>
    match s with
    | EmptyString => false
    | String b s' => Ascii.eqb a b && startsWith s' searchString'
    end
  end.

(** [s.endsWith(searchString)]: some tail of [s] is [searchString]. *)
Fixpoint endsWith (s searchString : string) : bool :=
  String.eqb s searchString
  || match s with
     | EmptyString => false
     | String _ s' => endsWith s' searchString
     end.

(** [s.split(separator)] for a separator of one character. *)
Fixpoint split (s : string) (separator : ascii) : list string :=
  match s with
  | EmptyString => [EmptyString]
  | String c s' =>
    if Ascii.eqb c separator then EmptyString :: split s' separator
    else match split s' separator with
         | head :: tail => String c head :: tail
         | [] => [String c EmptyString]
         end
  end.

(** What is left of [s] after [searchString], if [s] starts with it. *)
Fixpoint afterPrefix (s searchString : string) {struct searchString}
  : option string :=
  match searchString with
  | EmptyString => Some s
  | String a searchString' =>
    match s with
    | EmptyString => None
    | String b s' => if Ascii.eqb a b then afterPrefix s' searchString' else None
    end
  end.

(** The longest run of characters other than [/] at the head of [s], and
    what follows it. *)
Fixpoint spanSegment (s : string) : string * string :=
  match s with
  | EmptyString => (EmptyString, EmptyString)
  | String c s' =>
    if Ascii.eqb c "/" then (EmptyString, s)
    else let (segment, rest) := spanSegment s' in (String c segment, rest)
  end.

(** [path.match(/^\/api\/groups\/[^\/]+\/join$/)]: after the literal
    prefix, one or more characters other than [/], then [/join] and the end.
    The run matched by [[^\/]+] is the longest one, since [/] must follow. *)
Definition matchesJoinPath (path : string) : bool :=
  match afterPrefix path "/api/groups/" with
  | Some rest =>
    let (segment, tail) := spanSegment rest in
    negb (String.eqb segment "") && String.eqb tail "/join"
  | None => false
  end.

(** The request as [fetch] reads it: method, [url.pathname], and what
    [request.json()] gives ([None]: the body is not JSON and the call
    throws).  The JSON body is an object with the fields the two POST routes
    read. *)
Record Request := mkRequest {
  req_method : string;
  req_path : string;
  req_json : option CreateGroupRequest
}.

Definition notFound : FetchResponse :=
  ofResponse (errorResponse "Endpoint not found" 404).

Definition internalErrorFetch : FetchResponse :=
  ofResponse (errorResponse "Internal server error" 500).

(** [new Response(null, { headers: corsHeaders })] *)
Definition preflightResponse : FetchResponse :=
  mkFetchResponse 200 None NullBody.

Definition liftRoute (r : Response * Store) : FetchResponse * Store :=
  (ofResponse (fst r), snd r).

Section Fetch.

(** [decodeURIComponent] of the runtime; [None] when it throws [URIError]. *)
Variable decodeURIComponent : string -> option string.

(** [fetch(request, env, ctx)] of [index.ts]: the first route whose test
    holds answers.  [path.split('/')[3]] is defined on every path that
    passes the test of its route; were it [undefined], Prisma would refuse
    the query. *)
Definition fetch (fuel : nat) (rt : Runtime) (request : Request) (s : Store)
  : option (FetchResponse * Store) :=
  let method := req_method request in
  let path := req_path request in
  if String.eqb method "OPTIONS" then Some (preflightResponse, s)
  else if String.eqb method "POST" && String.eqb path "/api/groups" then
    match req_json request with
    | None => Some (internalErrorFetch, s)
    | Some body => option_map liftRoute (createGroup fuel rt body s)
    end
  else if String.eqb method "POST" && matchesJoinPath path then
    match nth_error (split path "/") 3, req_json request with
    | Some inviteCode, Some body =>
      Some (liftRoute
              (joinGroup rt inviteCode (mkJoinGroupRequest (cr_deviceToken body)) s))
    | _, _ => Some (internalErrorFetch, s)
    end
  else if String.eqb method "GET" && startsWith path "/api/groups/"
          && negb (endsWith path "/join") then
    match nth_error (split path "/") 3 with
    | Some inviteCode => Some (liftRoute (getGroupDetails rt inviteCode s))
    | None => Some (internalErrorFetch, s)
    end
  else if String.eqb method "GET" && startsWith path "/api/users/"
          && endsWith path "/groups" then
    match nth_error (split path "/") 3 with
    | Some segment =>
      match decodeURIComponent segment with
      | Some deviceToken => Some (getUserGroups deviceToken s)
      | None => Some (internalErrorFetch, s)
      end
    | None => Some (internalErrorFetch, s)
    end
  else if String.eqb method "GET" && startsWith path "/api/users/"
          && endsWith path "/created-groups" then
    match nth_error (split path "/") 3 with
    | Some segment =>
      match decodeURIComponent segment with
      | Some deviceToken => Some (getUserCreatedGroups deviceToken s)
      | None => Some (internalErrorFetch, s)
      end
    | None => Some (internalErrorFetch, s)
    end
  else if String.eqb method "GET" && String.eqb path "/" then
    Some (jsonFetchResponse ApiInfoBody 200, s)
  else Some (notFound, s).

End Fetch.

(** No character of [s] is [/]. *)
Definition slashFree (s : string) : bool :=
  forall_chars (fun c => negb (Ascii.eqb c "/")) s.

(** The membership row the create route inserts for the creator. *)
Definition creatorMembership (rt : Runtime) (user : User) : GroupMember :=
  mkGroupMember (newMemberId rt) (user_id user) (newGroupId rt).

Definition alreadyMember : Response :=
  errorResponse "User is already a member of this group" 400.

Definition userNotFound : FetchResponse :=
  ofResponse (errorResponse "User not found" 404).

(** [s'] is [s] with at most one row appended to each table: nothing is
    deleted or rewritten. *)
Definition grows (s s' : Store) : Prop :=
  exists us gs ms,
    users s' = (users s ++ us)%list
    /\ groups s' = (groups s ++ gs)%list
    /\ groupMembers s' = (groupMembers s ++ ms)%list
    /\ (List.length us <= 1)%nat
    /\ (List.length gs <= 1)%nat
    /\ (List.length ms <= 1)%nat.

(** ** Vocabulary for counting the runs of the loop *)

(** The strings of length [n] over the alphabet. *)
Fixpoint codesOfLength (n : nat) : list string :=
  match n with
  | O => [EmptyString]
  | S n' =>
    flat_map (fun c => map (String c) (codesOfLength n'))
      (list_ascii_of_string chars)
  end.

(** The code space: the codes [generateInviteCode] can return. *)
Definition codeSpace : list string := codesOfLength 8.

(** The sequences of codes that [n] rounds of the loop can generate. *)
Fixpoint roundOutcomes (n : nat) : list (list string) :=
  match n with
  | O => [[]]
  | S n' => flat_map (fun code => map (cons code) (roundOutcomes n')) codeSpace
  end.

(** [existing] of the loop is not [null]. *)
Definition code_stored (s : Store) (inviteCode : string) : bool :=
  match group_findUnique inviteCode s with
  | Some _ => true
  | None => false
  end.

(** After rounds that generated [codes] the loop is still running: each of
    them is stored. *)
Definition stillRunning (s : Store) (codes : list string) : bool :=
  forallb (code_stored s) codes.

(** Draws that spell the codes of [codes], one code a round, from the
    [k]-th draw on. *)
Definition draws_for_rounds (codes : list string) (k : nat) (j : nat) : Double :=
  draws_for (nth ((j - k) / 8) codes EmptyString) (k + 8 * ((j - k) / 8)) j.

(** * Properties *)

(** ** The invite-code generator *)

Lemma forall_chars_app p s1 s2 :
  forall_chars p (s1 ++ s2) = forall_chars p s1 && forall_chars p s2.
Proof.
  induction s1 as [|c s1 IH]; simpl; [reflexivity|].
  now rewrite IH, andb_assoc.
Qed.

Lemma string_length_app (s1 s2 : string) :
  String.length (s1 ++ s2) = (String.length s1 + String.length s2)%nat.
Proof. induction s1; simpl; congruence. Qed.

(** *** The rounded product stays below the length of the alphabet *)

Lemma floor_below (q F B : Z) :
  0 <= q -> 0 <= F -> q < B * 2 ^ F -> 0 <= Z.shiftl q (- F) < B.
Proof.
  intros Hq HF Hlt.
  rewrite Z.shiftl_opp_r, Z.shiftr_div_pow2 by lia.
  assert (0 < 2 ^ F) by (apply Z.pow_pos_nonneg; lia).
  split; [apply Z.div_pos; lia|].
  apply Z.div_lt_upper_bound; lia.
Qed.

(** The rounding can reach the next integer only from a product that is
    within half a unit in the last place of it; below 1 a double is too far
    from 1 for that. *)
Lemma mulDouble_below (m E : Z) :
  0 < m < 2 ^ 53 -> 0 < E -> m < 2 ^ E ->
  0 <= floorDouble (mulDouble (mkDouble m (- E)) 36) < 36.
Proof.
  intros Hm HE HmE. unfold mulDouble. cbn [mantissa exponent].
  set (n := m * 36).
  assert (Hn : 0 < n) by (unfold n; lia).
  pose proof (Z.log2_spec n Hn) as [Hlo Hhi].
  pose proof (Z.log2_nonneg n) as HL0.
  assert (HPE : 0 < 2 ^ E) by (apply Z.pow_pos_nonneg; lia).
  assert (HLE : Z.log2 n < E + 6).
  { apply Z.log2_lt_pow2; [exact Hn|].
    rewrite Z.pow_add_r by lia. change (2 ^ 6) with 64. unfold n. lia. }
  unfold roundDouble.
  set (L := Z.log2 n) in *.
  set (shift := Z.max (L + 1 - 53) (-1074 - - E)).
  destruct (Z.leb_spec shift 0) as [Hs|Hs].
  - unfold floorDouble. cbn [mantissa exponent].
    apply floor_below; unfold n; lia.
  - assert (HF : 0 < E - shift) by (unfold shift in *; lia).
    set (F := E - shift) in *.
    set (T := 2 ^ shift).
    assert (HT : 0 < T) by (apply Z.pow_pos_nonneg; lia).
    assert (HPF : 0 < 2 ^ F) by (apply Z.pow_pos_nonneg; lia).
    assert (HEFT : 2 ^ E = 2 ^ F * T).
    { unfold T. rewrite <- Z.pow_add_r by lia. f_equal. unfold F. lia. }
    assert (Hhalf : T = 2 * 2 ^ (shift - 1)).
    { unfold T. rewrite <- Z.pow_succ_r by lia. f_equal. lia. }
    assert (HF1 : 2 ^ F = 2 * 2 ^ (F - 1)).
    { rewrite <- Z.pow_succ_r by lia. f_equal. lia. }
    pose proof (Z.div_mod n T ltac:(lia)) as Hdm.
    pose proof (Z.mod_pos_bound n T HT) as Hr.
    set (q := n / T) in *. set (r := n mod T) in *.
    assert (Hq0 : 0 <= q) by (apply Z.div_pos; lia).
    assert (Hq : q < 36 * 2 ^ F) by (unfold n in *; nia).
    set (q' := if (2 ^ (shift - 1) <? r) || ((2 ^ (shift - 1) =? r) && Z.odd q)
               then q + 1 else q).
    assert (Hq' : 0 <= q' < 36 * 2 ^ F).
    { unfold q'.
      destruct ((2 ^ (shift - 1) <? r) || ((2 ^ (shift - 1) =? r) && Z.odd q))
        eqn:Hup; [|lia].
      assert (Hge : 2 ^ (shift - 1) <= r).
      { apply orb_prop in Hup. destruct Hup as [H|H].
        - apply Z.ltb_lt in H. lia.
        - apply andb_prop in H. destruct H as [H _]. apply Z.eqb_eq in H. lia. }
      split; [lia|].
      destruct (Z.lt_ge_cases n (18 * 2 ^ E)) as [Hsmall|Hbig].
      - destruct (Z.eq_dec q 0) as [->|Hq1]; [lia|]. nia.
      - assert (HE53 : E < 54).
        { apply (Z.pow_lt_mono_r_iff 2); [lia | lia |].
          change (2 ^ 54) with (2 * 2 ^ 53). unfold n in Hbig. lia. }
        assert (Hshift : shift <= 6) by (unfold shift; lia).
        assert (HT64 : T <= 64).
        { unfold T. change 64 with (2 ^ 6). apply Z.pow_le_mono_r; lia. }
        unfold n in *. nia. }
    destruct (Z.eqb_spec q' (2 ^ 53)) as [H53|H53];
      unfold floorDouble; cbn [mantissa exponent].
    + replace (- E + shift + 1) with (- (F - 1)) by (unfold F; lia).
      apply floor_below; [lia | lia |]. rewrite H53 in Hq'.
      change (2 ^ 53) with (2 * 2 ^ 52) in Hq'. lia.
    + replace (- E + shift) with (- F) by (unfold F; lia).
      apply floor_below; lia.
Qed.

Lemma randomIndex_range rnd k :
  unitDouble (rnd k) = true -> 0 <= randomIndex rnd k < 36.
Proof.
  unfold randomIndex.
  change (Z.of_nat (String.length chars)) with 36.
  destruct (rnd k) as [m e]. unfold unitDouble. cbn [mantissa exponent].
  intros H. apply andb_prop in H. destruct H as [H Hcase].
  apply andb_prop in H. destruct H as [H He].
  apply andb_prop in H. destruct H as [Hm0 Hm53].
  apply Z.leb_le in Hm0, He. apply Z.ltb_lt in Hm53.
  assert (Hzero : m = 0 ->
                  0 <= floorDouble (mulDouble (mkDouble m e) 36) < 36).
  { intros ->. unfold mulDouble, roundDouble. cbn [mantissa exponent].
    change (Z.log2 (0 * 36)) with 0.
    destruct (Z.leb_spec (Z.max (0 + 1 - 53) (-1074 - e)) 0); [|lia].
    unfold floorDouble. cbn [mantissa exponent].
    rewrite Z.shiftl_0_l. lia. }
  destruct (Z.eq_dec m 0) as [Hz|Hz]; [now apply Hzero|].
  apply orb_prop in Hcase. destruct Hcase as [H0|H0].
  - apply Z.eqb_eq in H0. contradiction.
  - apply andb_prop in H0. destruct H0 as [Hneg Hlt].
    apply Z.ltb_lt in Hneg, Hlt.
    replace e with (- (- e)) by lia.
    apply mulDouble_below; lia.
Qed.

(** The rounding of the product is that of the Standard Library's
    specification of IEEE 754 multiplication, on draws next to the ends of
    the interval, on draws whose product with 36 is a tie or is rounded up
    to an integer, and on subnormal draws. *)
Lemma mulDouble_SFmul :
  Forall
    (fun x =>
       SFmul 53 1024 (toSpecFloat x) (toSpecFloat (mkDouble 36 0))
       = toSpecFloat (mulDouble x 36))
    [mkDouble 0 0; mkDouble 1 (-1074); mkDouble 5 (-1074);
     mkDouble (2 ^ 53 - 1) (-1074); mkDouble 1 (-53); mkDouble 3 (-3);
     mkDouble (2 ^ 52 + 1) (-53); mkDouble (2 ^ 52 + 3) (-53);
     mkDouble 2001599834386887 (-52); mkDouble 4503599627370497 (-53);
     mkDouble 8006399337547548 (-53); mkDouble 8006399337547549 (-53);
     mkDouble 6004799503160661 (-55); mkDouble (2 ^ 53 - 2) (-53);
     mkDouble (2 ^ 53 - 1) (-53)].
Proof. repeat constructor. Qed.

(** A draw the exact product of which lies below 16 while its double is
    16: the index is 16, the one the program computes. *)
Lemma randomIndex_rounds_up :
  randomIndex (fun _ => mkDouble 2001599834386887 (-52)) 0 = 16
  /\ 2001599834386887 * 36 < 16 * 2 ^ 52.
Proof. split; reflexivity. Qed.

Lemma charAt_chars i :
  0 <= i < 36 ->
  exists c, charAt chars i = String c EmptyString /\ is_lower_or_digit c = true.
Proof.
  intros Hi.
  assert (Hn : exists n, (n < 36)%nat /\ i = Z.of_nat n).
  { exists (Z.to_nat i). split; lia. }
  destruct Hn as (n & Hn & ->).
  do 36 (destruct n as [|n]; [eexists; split; reflexivity|]).
  lia.
Qed.

Lemma generateInviteCode_loop_spec n rnd : forall k result,
  draws_in_unit rnd k n ->
  String.length (generateInviteCode_loop n rnd k result)
    = (String.length result + n)%nat
  /\ forall_chars is_lower_or_digit (generateInviteCode_loop n rnd k result)
     = forall_chars is_lower_or_digit result.
Proof.
  induction n as [|n IH]; intros k result Hd; simpl.
  - split; [lia | reflexivity].
  - destruct (charAt_chars (randomIndex rnd k)) as (c & Hc & Hin).
    { apply randomIndex_range, Hd. lia. }
    destruct (IH (S k) (result ++ charAt chars (randomIndex rnd k))) as [Hl Ha].
    { intros j Hj. apply Hd. lia. }
    rewrite Hl, Ha, string_length_app, forall_chars_app, Hc. simpl.
    rewrite Hin, andb_true_r. split; [lia | reflexivity].
Qed.

(** C9.  Whatever [Math.random()] draws within its contract (values in
    [0, 1)), the string [generateInviteCode] returns has length exactly 8
    and each of its characters is a lowercase letter [a]-[z] or a digit
    [0]-[9]. *)
Theorem generateInviteCode_shape (rnd : nat -> Double) (k : nat) :
  draws_in_unit rnd k 8 ->
  String.length (generateInviteCode rnd k) = 8%nat
  /\ forall_chars is_lower_or_digit (generateInviteCode rnd k) = true.
Proof.
  intros Hd. unfold generateInviteCode.
  destruct (generateInviteCode_loop_spec 8 rnd k "" Hd) as [Hl Ha].
  rewrite Hl, Ha. split; reflexivity.
Qed.

(** ** The invite-code allocation loop *)

Lemma group_findUnique_None inviteCode s :
  group_findUnique inviteCode s = None <-> code_unused inviteCode s.
Proof.
  unfold group_findUnique, code_unused. split.
  - intros Hf g Hg Heq.
    apply (find_none _ _ Hf) in Hg. unfold group_by_code in Hg.
    rewrite Heq, String.eqb_refl in Hg. discriminate.
  - intros Hu. destruct (find _ _) as [g|] eqn:Hf; [|reflexivity].
    apply find_some in Hf. destruct Hf as [Hg Hc].
    apply String.eqb_eq in Hc. now apply Hu in Hg.
Qed.

Lemma uniqueInviteCode_shift fuel rnd k s :
  uniqueInviteCode (S fuel) rnd k s =
  match group_findUnique (attempt rnd k 0) s with
  | None => Some (attempt rnd k 0)
  | Some _ => uniqueInviteCode fuel rnd (k + 8) s
  end.
Proof. unfold attempt. simpl. now rewrite Nat.add_0_r. Qed.

Lemma attempt_shift rnd k n : attempt rnd (k + 8) n = attempt rnd k (S n).
Proof. unfold attempt. f_equal. lia. Qed.

(** The loop returns in round [n] exactly when [n] is the first round
    whose code is unused. *)
Lemma uniqueInviteCode_first rnd s n : forall k fuel,
  (forall j, (j < n)%nat -> group_findUnique (attempt rnd k j) s <> None) ->
  group_findUnique (attempt rnd k n) s = None ->
  (n < fuel)%nat ->
  uniqueInviteCode fuel rnd k s = Some (attempt rnd k n).
Proof.
  induction n as [|n IH]; intros k fuel Htaken Hfree Hfuel;
    (destruct fuel as [|fuel]; [lia|]); rewrite uniqueInviteCode_shift.
  - now rewrite Hfree.
  - destruct (group_findUnique (attempt rnd k 0) s) eqn:H0.
    + rewrite <- attempt_shift. apply IH; [| now rewrite attempt_shift | lia].
      intros j Hj. rewrite attempt_shift. apply Htaken. lia.
    + exfalso. apply (Htaken 0%nat); [lia | exact H0].
Qed.

Lemma uniqueInviteCode_running rnd s n : forall k,
  (forall j, (j < n)%nat -> group_findUnique (attempt rnd k j) s <> None) ->
  uniqueInviteCode n rnd k s = None.
Proof.
  induction n as [|n IH]; intros k Htaken; [reflexivity|].
  rewrite uniqueInviteCode_shift.
  destruct (group_findUnique (attempt rnd k 0) s) eqn:H0.
  - apply IH. intros j Hj. rewrite attempt_shift. apply Htaken. lia.
  - exfalso. apply (Htaken 0%nat); [lia | exact H0].
Qed.

Lemma uniqueInviteCode_inv rnd s fuel : forall k inviteCode,
  uniqueInviteCode fuel rnd k s = Some inviteCode ->
  exists n, (n < fuel)%nat /\ inviteCode = attempt rnd k n
            /\ group_findUnique inviteCode s = None
            /\ forall j, (j < n)%nat ->
                 group_findUnique (attempt rnd k j) s <> None.
Proof.
  induction fuel as [|fuel IH]; intros k inviteCode H; [discriminate|].
  rewrite uniqueInviteCode_shift in H.
  destruct (group_findUnique (attempt rnd k 0) s) eqn:H0.
  - destruct (IH _ _ H) as (n & Hn & -> & Hfree & Htaken).
    exists (S n). rewrite attempt_shift in *. repeat split; [lia | exact Hfree |].
    intros [|j] Hj; [congruence|].
    rewrite <- attempt_shift. apply Htaken. lia.
  - injection H as <-. exists 0%nat. repeat split; [lia | exact H0 |].
    intros j Hj. lia.
Qed.

Lemma uniqueInviteCode_mono rnd s k fuel fuel' inviteCode :
  uniqueInviteCode fuel rnd k s = Some inviteCode ->
  (fuel <= fuel')%nat ->
  uniqueInviteCode fuel' rnd k s = Some inviteCode.
Proof.
  intros H Hle. destruct (uniqueInviteCode_inv _ _ _ _ _ H)
    as (n & Hn & -> & Hfree & Htaken).
  apply uniqueInviteCode_first; [exact Htaken | exact Hfree | lia].
Qed.

(** Among the first rounds there is a first one with an unused code, if
    there is one at all. *)
Lemma first_unused rnd k s n :
  group_findUnique (attempt rnd k n) s = None ->
  exists m, (m <= n)%nat /\ group_findUnique (attempt rnd k m) s = None
            /\ forall j, (j < m)%nat ->
                 group_findUnique (attempt rnd k j) s <> None.
Proof.
  induction n as [n IH] using lt_wf_ind. intros Hfree.
  destruct (existsb
              (fun j => match group_findUnique (attempt rnd k j) s with
                        | None => true | Some _ => false end) (seq 0 n)) eqn:He.
  - apply existsb_exists in He. destruct He as (j & Hj & Hjfree).
    apply in_seq in Hj.
    destruct (group_findUnique (attempt rnd k j) s) eqn:Hfj; [discriminate|].
    destruct (IH j ltac:(lia) Hfj) as (m & Hm & Hmfree & Hmfirst).
    exists m. repeat split; [lia | exact Hmfree | exact Hmfirst].
  - exists n. repeat split; [lia | exact Hfree |].
    intros j Hj Hjfree.
    assert (Hin : In j (seq 0 n)) by (apply in_seq; lia).
    assert (Ht : existsb
              (fun j => match group_findUnique (attempt rnd k j) s with
                        | None => true | Some _ => false end) (seq 0 n) = true).
    { apply existsb_exists. exists j. split; [exact Hin|]. now rewrite Hjfree. }
    congruence.
Qed.

(** *** Every code of the code space can be drawn *)

Lemma index_in_chars c :
  is_lower_or_digit c = true ->
  (index_in c chars < 36)%nat
  /\ charAt chars (Z.of_nat (index_in c chars)) = String c EmptyString.
Proof.
  destruct c as [[] [] [] [] [] [] [] []]; vm_compute;
    (discriminate || (intros _; split; [lia | reflexivity])).
Qed.

Lemma drawOfIndex_spec (i : nat) :
  (i < 36)%nat ->
  unitDouble (drawOfIndex i) = true
  /\ floorDouble (mulDouble (drawOfIndex i) 36) = Z.of_nat i.
Proof.
  intros Hi.
  do 36 (destruct i as [|i]; [split; reflexivity|]).
  lia.
Qed.

Lemma randomIndex_draw rnd k (i : nat) :
  (i < 36)%nat -> rnd k = drawOfIndex i -> randomIndex rnd k = Z.of_nat i.
Proof.
  intros Hi Hr. unfold randomIndex. rewrite Hr.
  exact (proj2 (drawOfIndex_spec i Hi)).
Qed.

Lemma draws_for_in_unit code k j :
  forall_chars is_lower_or_digit code = true ->
  unitDouble (draws_for code k j) = true.
Proof.
  intros Hok. unfold draws_for.
  destruct (String.get (j - k) code) as [c|] eqn:Hget; [|reflexivity].
  assert (Hc : is_lower_or_digit c = true).
  { clear - Hok Hget. revert code Hok Hget.
    induction (j - k)%nat as [|n IH]; intros [|d code] Hok Hget;
      simpl in *; try discriminate;
      apply andb_prop in Hok; destruct Hok as [Hd Hrest].
    - now injection Hget as <-.
    - now apply (IH code). }
  destruct (index_in_chars c Hc) as [Hlt _].
  exact (proj1 (drawOfIndex_spec _ Hlt)).
Qed.

Lemma append_assoc_string (a b c : string) : ((a ++ b) ++ c = a ++ (b ++ c))%string.
Proof. induction a; simpl; congruence. Qed.

Lemma get_app_length (pre : string) c rest :
  String.get (String.length pre) (pre ++ String c rest) = Some c.
Proof. induction pre; simpl; auto. Qed.

Lemma generateInviteCode_loop_replay code k : forall rest pre result,
  code = (pre ++ rest)%string ->
  forall_chars is_lower_or_digit rest = true ->
  generateInviteCode_loop (String.length rest) (draws_for code k)
    (k + String.length pre) result = (result ++ rest)%string.
Proof.
  induction rest as [|c rest IH]; intros pre result Hcode Hok; simpl.
  - clear. induction result; simpl; congruence.
  - apply andb_prop in Hok. destruct Hok as [Hc Hrest].
    destruct (index_in_chars c Hc) as [Hlt Hat].
    rewrite (randomIndex_draw _ _ (index_in c chars) Hlt).
    2:{ unfold draws_for.
        replace (k + String.length pre - k)%nat with (String.length pre) by lia.
        now rewrite Hcode, get_app_length. }
    rewrite Hat.
    replace (S (k + String.length pre))
      with (k + String.length (pre ++ String c EmptyString))%nat
      by (rewrite string_length_app; simpl; lia).
    rewrite IH; [| | exact Hrest].
    + now rewrite append_assoc_string.
    + now rewrite append_assoc_string.
Qed.

Lemma generateInviteCode_onto code k :
  in_code_space code ->
  (forall j, unitDouble (draws_for code k j) = true)
  /\ generateInviteCode (draws_for code k) k = code.
Proof.
  intros [Hlen Hok]. split.
  - intros j. now apply draws_for_in_unit.
  - unfold generateInviteCode. rewrite <- Hlen.
    replace k with (k + String.length "")%nat at 2 by (simpl; lia).
    now rewrite (generateInviteCode_loop_replay code k code "" "").
Qed.

Lemma generateInviteCode_loop_ext n rnd rnd' : forall k result,
  (forall j, (k <= j < k + n)%nat -> rnd j = rnd' j) ->
  generateInviteCode_loop n rnd k result
  = generateInviteCode_loop n rnd' k result.
Proof.
  induction n as [|n IH]; intros k result Heq; simpl; [reflexivity|].
  unfold randomIndex. rewrite (Heq k) by lia.
  apply IH. intros j Hj. apply Heq. lia.
Qed.



(** *** Draws on which every code comes up *)




Lemma countingRandom_in_unit j : unitDouble (countingRandom j) = true.
Proof.
  unfold countingRandom. apply drawOfIndex_spec. unfold codeDigit.
  pose proof (Z.mod_pos_bound (Z.of_nat (j / 8) / 36 ^ (7 - Z.of_nat (j mod 8)))
                36 ltac:(lia)). lia.
Qed.



(** *** The share of the runs on which the loop is still going *)

Section Counting.
Context {A B : Type}.

Lemma length_flat_map_const (f : A -> list B) (l : list A) (c : nat) :
  (forall a, List.length (f a) = c) ->
  List.length (flat_map f l) = (List.length l * c)%nat.
Proof.
  intros Hf. induction l as [|a l IH]; simpl; [reflexivity|].
  now rewrite List.length_app, Hf, IH.
Qed.

Lemma NoDup_flat_map (f : A -> list B) (l : list A) :
  NoDup l ->
  (forall a, NoDup (f a)) ->
  (forall a a' b, In b (f a) -> In b (f a') -> a = a') ->
  NoDup (flat_map f l).
Proof.
  intros Hl Hf Hdisj. induction Hl as [|a l Ha _ IH]; simpl; [constructor|].
  apply NoDup_app; [apply Hf | exact IH |].
  intros b Hb Hin. apply in_flat_map in Hin. destruct Hin as (a' & Ha' & Hb').
  apply Ha. now rewrite (Hdisj a a' b Hb Hb').
Qed.

Lemma NoDup_map_injective (f : A -> B) (l : list A) :
  (forall x y, f x = f y -> x = y) -> NoDup l -> NoDup (map f l).
Proof.
  intros Hf Hl. induction Hl as [|a l Ha _ IH]; simpl; constructor; [|exact IH].
  intros Hin. apply in_map_iff in Hin. destruct Hin as (x & Hx & Hin).
  apply Hf in Hx. now subst.
Qed.
End Counting.

Lemma filter_length_lt {A} (p : A -> bool) (l : list A) a :
  In a l -> p a = false -> (List.length (filter p l) < List.length l)%nat.
Proof.
  induction l as [|x l IH]; intros Hin Hp; [destruct Hin|].
  simpl. pose proof (filter_length_le p l) as Hle.
  destruct Hin as [->|Hin].
  - rewrite Hp. lia.
  - specialize (IH Hin Hp). destruct (p x); simpl; lia.
Qed.

Lemma alphabet_complete c :
  is_lower_or_digit c = true -> In c (list_ascii_of_string chars).
Proof.
  intros Hc.
  assert (He : existsb (Ascii.eqb c) (list_ascii_of_string chars) = true).
  { revert Hc. destruct c as [[] [] [] [] [] [] [] []]; vm_compute;
      intros H; (reflexivity || discriminate H). }
  apply existsb_exists in He. destruct He as (d & Hd & Hcd).
  apply Ascii.eqb_eq in Hcd. now subst.
Qed.

Lemma alphabet_sound c :
  In c (list_ascii_of_string chars) -> is_lower_or_digit c = true.
Proof.
  intros Hc.
  assert (Hall : forallb is_lower_or_digit (list_ascii_of_string chars) = true)
    by reflexivity.
  exact (proj1 (forallb_forall _ _) Hall c Hc).
Qed.

Lemma alphabet_NoDup : NoDup (list_ascii_of_string chars).
Proof.
  assert (H : forall l : list ascii,
             (fix nodup (l : list ascii) : bool :=
                match l with
                | [] => true
                | c :: l' => negb (existsb (Ascii.eqb c) l') && nodup l'
                end) l = true -> NoDup l).
  { induction l as [|c l IH]; intros Hl; [constructor|].
    apply andb_prop in Hl. destruct Hl as [Hc Hl].
    constructor; [|now apply IH].
    intros Hin. apply negb_true_iff in Hc.
    assert (Ht : existsb (Ascii.eqb c) l = true).
    { apply existsb_exists. exists c. split; [exact Hin | apply Ascii.eqb_refl]. }
    congruence. }
  apply H. reflexivity.
Qed.

Lemma codesOfLength_In n : forall code,
  In code (codesOfLength n)
  <-> String.length code = n /\ forall_chars is_lower_or_digit code = true.
Proof.
  induction n as [|n IH]; intros code; cbn [codesOfLength].
  - split.
    + intros [<-|[]]. split; reflexivity.
    + intros [Hlen _]. destruct code; [now left | discriminate].
  - rewrite in_flat_map. split.
    + intros (c & Hc & Hin). apply in_map_iff in Hin.
      destruct Hin as (rest & <- & Hrest). apply IH in Hrest.
      destruct Hrest as [Hlen Hok]. simpl.
      rewrite Hlen, Hok, (alphabet_sound c Hc). split; reflexivity.
    + intros [Hlen Hok]. destruct code as [|c rest]; [discriminate|].
      simpl in Hlen, Hok. apply andb_prop in Hok. destruct Hok as [Hc Hok].
      exists c. split; [now apply alphabet_complete|].
      apply in_map. apply IH. split; [lia | exact Hok].
Qed.

Lemma codesOfLength_length n :
  Z.of_nat (List.length (codesOfLength n)) = 36 ^ Z.of_nat n.
Proof.
  induction n as [|n IH]; [reflexivity|].
  cbn [codesOfLength].
  rewrite (length_flat_map_const _ _ (List.length (codesOfLength n)))
    by (intros a; apply List.length_map).
  rewrite Nat2Z.inj_mul, IH, Nat2Z.inj_succ, Z.pow_succ_r by lia.
  reflexivity.
Qed.

Lemma codesOfLength_NoDup n : NoDup (codesOfLength n).
Proof.
  induction n as [|n IH]; cbn [codesOfLength];
    [repeat constructor; intros []|].
  apply NoDup_flat_map.
  - exact alphabet_NoDup.
  - intros c. apply NoDup_map_injective; [|exact IH].
    intros x y H. now injection H.
  - intros c c' code Hc Hc'. apply in_map_iff in Hc, Hc'.
    destruct Hc as (x & <- & _). destruct Hc' as (y & H & _). now injection H.
Qed.

(** The code space is the set of the 8-character codes over [a-z0-9]: each
    once, [36 ^ 8] codes in all. *)
Lemma codeSpace_spec :
  (forall code, In code codeSpace <-> in_code_space code)
  /\ NoDup codeSpace
  /\ Z.of_nat (List.length codeSpace) = 36 ^ 8.
Proof.
  split; [|split].
  - intros code. apply codesOfLength_In.
  - apply codesOfLength_NoDup.
  - apply (codesOfLength_length 8).
Qed.

Lemma roundOutcomes_In n : forall codes,
  In codes (roundOutcomes n)
  <-> List.length codes = n /\ Forall in_code_space codes.
Proof.
  induction n as [|n IH]; intros codes; cbn [roundOutcomes].
  - split.
    + intros [<-|[]]. split; [reflexivity | constructor].
    + intros [Hlen _]. destruct codes; [now left | discriminate].
  - rewrite in_flat_map. split.
    + intros (code & Hcode & Hin). apply in_map_iff in Hin.
      destruct Hin as (rest & <- & Hrest). apply IH in Hrest.
      destruct Hrest as [Hlen Hok]. simpl. split; [now rewrite Hlen|].
      constructor; [now apply codesOfLength_In | exact Hok].
    + intros [Hlen Hok]. destruct codes as [|code rest]; [discriminate|].
      inversion Hok as [|? ? Hcode Hrest]; subst.
      exists code. split; [now apply codesOfLength_In|].
      apply in_map. apply IH. simpl in Hlen. split; [lia | exact Hrest].
Qed.

Lemma roundOutcomes_NoDup n : NoDup (roundOutcomes n).
Proof.
  induction n as [|n IH]; cbn [roundOutcomes];
    [repeat constructor; intros []|].
  apply NoDup_flat_map.
  - apply codesOfLength_NoDup.
  - intros c. apply NoDup_map_injective; [|exact IH].
    intros x y H. now injection H.
  - intros c c' code Hc Hc'. apply in_map_iff in Hc, Hc'.
    destruct Hc as (x & <- & _). destruct Hc' as (y & H & _). now injection H.
Qed.

Lemma roundOutcomes_length n :
  List.length (roundOutcomes n) = (List.length codeSpace ^ n)%nat.
Proof.
  induction n as [|n IH]; [reflexivity|].
  cbn [roundOutcomes].
  rewrite (length_flat_map_const _ _ (List.length (roundOutcomes n)))
    by (intros a; apply List.length_map).
  now rewrite IH.
Qed.

Lemma stillRunning_cons s code (outcomes : list (list string)) :
  filter (stillRunning s) (map (cons code) outcomes)
  = if code_stored s code then map (cons code) (filter (stillRunning s) outcomes)
    else [].
Proof.
  induction outcomes as [|o outcomes IH]; simpl.
  - now destruct (code_stored s code).
  - rewrite IH. destruct (code_stored s code); simpl; [|reflexivity].
    now destruct (stillRunning s o).
Qed.

Lemma stillRunning_length s n :
  List.length (filter (stillRunning s) (roundOutcomes n))
  = (List.length (filter (code_stored s) codeSpace) ^ n)%nat.
Proof.
  induction n as [|n IH]; [reflexivity|].
  cbn [roundOutcomes Nat.pow]. rewrite <- IH.
  generalize codeSpace. intros space.
  induction space as [|code space IHs]; [reflexivity|].
  cbn [flat_map filter]. rewrite filter_app, List.length_app, IHs, stillRunning_cons.
  destruct (code_stored s code); simpl; [|reflexivity].
  now rewrite List.length_map.
Qed.

(** Powers of [a + 1] outgrow every multiple of the powers of [a]. *)
Lemma pow_outgrows (a b N : nat) :
  (a < b)%nat -> exists n, (N * a ^ n < b ^ n)%nat.
Proof.
  intros Hab.
  assert (Hbern : forall n, (a ^ n * (a + n) <= (a + 1) ^ n * a)%nat).
  { induction n as [|n IH]; simpl; [lia|]. nia. }
  assert (Hmono : forall n, ((a + 1) ^ n <= b ^ n)%nat).
  { intros n. apply Nat.pow_le_mono_l. lia. }
  destruct a as [|a].
  - exists 1%nat. simpl. lia.
  - exists (N * S a)%nat.
    pose proof (Hbern (N * S a)%nat) as H1.
    pose proof (Hmono (N * S a)%nat) as H2.
    assert (Hpos : (0 < S a ^ (N * S a))%nat).
    { apply Nat.neq_0_lt_0, Nat.pow_nonzero. discriminate. }
    nia.
Qed.

Lemma uniqueInviteCode_None_iff n rnd k s :
  uniqueInviteCode n rnd k s = None
  <-> stillRunning s (map (attempt rnd k) (seq 0 n)) = true.
Proof.
  unfold stillRunning. rewrite forallb_forall. split.
  - intros Hnone code Hin. apply in_map_iff in Hin.
    destruct Hin as (j & <- & Hj). apply in_seq in Hj.
    unfold code_stored.
    destruct (group_findUnique (attempt rnd k j) s) eqn:Hf; [reflexivity|].
    destruct (first_unused _ _ _ _ Hf) as (m & Hm & Hmf & Hfirst).
    rewrite (uniqueInviteCode_first rnd s m k n Hfirst Hmf ltac:(lia)) in Hnone.
    discriminate.
  - intros Hall. apply uniqueInviteCode_running. intros j Hj Hf.
    assert (Hin : In (attempt rnd k j) (map (attempt rnd k) (seq 0 n))).
    { apply in_map, in_seq. lia. }
    apply Hall in Hin. unfold code_stored in Hin. now rewrite Hf in Hin.
Qed.

Lemma attempts_in_outcomes n rnd k :
  draws_in_unit rnd k (8 * n) ->
  In (map (attempt rnd k) (seq 0 n)) (roundOutcomes n).
Proof.
  intros Hd. apply roundOutcomes_In. split.
  - now rewrite List.length_map, List.length_seq.
  - apply Forall_forall. intros code Hin. apply in_map_iff in Hin.
    destruct Hin as (j & <- & Hj). apply in_seq in Hj.
    unfold attempt, in_code_space, generateInviteCode.
    destruct (generateInviteCode_loop_spec 8 rnd (k + 8 * j) EmptyString)
      as [Hl Ha].
    { intros i Hi. apply Hd. lia. }
    now rewrite Hl, Ha.
Qed.

Lemma draws_for_rounds_spec n : forall codes k,
  In codes (roundOutcomes n) ->
  (forall j, unitDouble (draws_for_rounds codes k j) = true)
  /\ map (attempt (draws_for_rounds codes k) k) (seq 0 n) = codes.
Proof.
  intros codes k Hin. apply roundOutcomes_In in Hin. destruct Hin as [Hlen Hok].
  split.
  - intros j. unfold draws_for_rounds.
    destruct (Nat.lt_ge_cases ((j - k) / 8) (List.length codes)) as [Hlt|Hge].
    + apply draws_for_in_unit.
      apply (proj1 (Forall_forall _ _) Hok). now apply nth_In.
    + rewrite (nth_overflow _ _ Hge). apply draws_for_in_unit. reflexivity.
  - subst n. apply (nth_ext _ _ EmptyString EmptyString).
    + now rewrite List.length_map, List.length_seq.
    + intros i Hi. rewrite List.length_map, List.length_seq in Hi.
      rewrite (nth_indep _ _ (attempt (draws_for_rounds codes k) k 0%nat))
        by (now rewrite List.length_map, List.length_seq).
      rewrite map_nth, seq_nth by exact Hi. simpl Nat.add.
      assert (Hcode : in_code_space (nth i codes EmptyString)).
      { apply (proj1 (Forall_forall _ _) Hok). now apply nth_In. }
      destruct (generateInviteCode_onto _ (k + 8 * i) Hcode) as [_ Hgen].
      etransitivity; [|exact Hgen]. unfold attempt, generateInviteCode.
      apply generateInviteCode_loop_ext. intros j Hj.
      unfold draws_for_rounds.
      replace ((j - k) / 8)%nat with i
        by (apply (Nat.div_unique _ 8 i (j - k - 8 * i)); lia).
      reflexivity.
Qed.

(** X27.  The runs on which the loop is still going thin out.  For draws
    within the contract of [Math.random()] the codes of [n] rounds form one
    of the sequences of [n] codes of the code space, each of which some
    draws generate, and the loop is still running after these rounds exactly
    when every one of the codes is stored.  When some code of the code space is
    not stored, the sequences on which the loop is still running number
    [stored ^ n] of the [(36 ^ 8) ^ n], with [stored], the number of the
    stored codes of the code space, less than [36 ^ 8]: a share that falls
    below [1 / N], whatever [N], as the rounds go on. *)
Theorem uniqueInviteCode_running_share s :
  (exists code, in_code_space code /\ code_unused code s) ->
  (forall n rnd k,
     draws_in_unit rnd k (8 * n) ->
     In (map (attempt rnd k) (seq 0 n)) (roundOutcomes n)
     /\ (uniqueInviteCode n rnd k s = None
         <-> stillRunning s (map (attempt rnd k) (seq 0 n)) = true))
  /\ (forall n codes k,
        In codes (roundOutcomes n) ->
        exists rnd,
          (forall j, unitDouble (rnd j) = true)
          /\ map (attempt rnd k) (seq 0 n) = codes)
  /\ (forall n,
        NoDup (roundOutcomes n)
        /\ Z.of_nat (List.length (roundOutcomes n)) = (36 ^ 8) ^ Z.of_nat n
        /\ List.length (filter (stillRunning s) (roundOutcomes n))
           = (List.length (filter (code_stored s) codeSpace) ^ n)%nat)
  /\ Z.of_nat (List.length (filter (code_stored s) codeSpace)) < 36 ^ 8
  /\ (forall N : nat,
        exists n,
          (N * List.length (filter (stillRunning s) (roundOutcomes n))
           < List.length (roundOutcomes n))%nat).
Proof.
  intros (code & Hcode & Hfree).
  assert (Hlt : (List.length (filter (code_stored s) codeSpace)
                 < List.length codeSpace)%nat).
  { apply (filter_length_lt _ _ code); [now apply codesOfLength_In|].
    unfold code_stored. apply group_findUnique_None in Hfree. now rewrite Hfree. }
  destruct codeSpace_spec as (_ & _ & Hsize).
  split; [|split; [|split; [|split]]].
  - intros n rnd k Hd. split; [now apply attempts_in_outcomes|].
    apply uniqueInviteCode_None_iff.
  - intros n codes k Hin. exists (draws_for_rounds codes k).
    now apply draws_for_rounds_spec.
  - intros n. split; [apply roundOutcomes_NoDup|].
    split; [|apply stillRunning_length].
    now rewrite roundOutcomes_length, Nat2Z.inj_pow, Hsize.
  - rewrite <- Hsize. lia.
  - intros N. destruct (pow_outgrows _ _ N Hlt) as (n & Hn).
    exists n. now rewrite roundOutcomes_length, stillRunning_length.
Qed.

Lemma uniqueInviteCode_running_share_witness :
  Z.of_nat (List.length (filter (code_stored sampleStore) codeSpace)) < 36 ^ 8
  /\ exists n,
       (1000
        * List.length (filter (stillRunning sampleStore) (roundOutcomes n))
        < List.length (roundOutcomes n))%nat.
Proof.
  assert (Hfree : exists code,
             in_code_space code /\ code_unused code sampleStore).
  { exists "bbbbbbbb". split; [split; reflexivity|].
    intros g [<-|[]]. discriminate. }
  destruct (uniqueInviteCode_running_share sampleStore Hfree)
    as (_ & _ & _ & Hstored & Hshare).
  split; [exact Hstored | exact (Hshare 1000%nat)].
Defined.

(** ** Store calls: what they return and what they change *)

Section ListFacts.
Context {A : Type} (p : A -> bool).

Lemma find_None_existsb (l : list A) :
  find p l = None -> existsb p l = false.
Proof.
  induction l as [|x l IH]; simpl; [reflexivity|].
  destruct (p x); [discriminate | exact IH].
Qed.

Lemma find_Some_existsb (l : list A) x :
  find p l = Some x -> existsb p l = true.
Proof.
  intros H. apply find_some in H. apply existsb_exists. now exists x.
Qed.

Lemma existsb_false_find (l : list A) :
  existsb p l = false -> find p l = None.
Proof.
  induction l as [|x l IH]; simpl; [reflexivity|].
  destruct (p x); [discriminate | exact IH].
Qed.

Lemma find_app_last (l : list A) x :
  find p (l ++ [x]) =
  match find p l with
  | Some y => Some y
  | None => if p x then Some x else None
  end.
Proof.
  induction l as [|y l IH]; simpl; [reflexivity|].
  destruct (p y); [reflexivity | exact IH].
Qed.

Lemma filter_app_last (l : list A) x :
  filter p (l ++ [x]) = (filter p l ++ (if p x then [x] else []))%list.
Proof. now rewrite filter_app. Qed.
End ListFacts.

Lemma ensureUser_eq rt deviceToken s :
  ensureUser rt deviceToken s =
  match find (user_by_token deviceToken) (users s) with
  | Some u => (Returned u, s)
  | None =>
    if existsb (user_by_id (newUserId rt)) (users s)
    then (Thrown "Unique constraint failed", s)
    else (Returned (mkUser (newUserId rt) deviceToken None),
          mkStore (users s ++ [mkUser (newUserId rt) deviceToken None])
            (groups s) (groupMembers s))
  end.
Proof.
  unfold ensureUser, bind, user_findUnique, ret, user_create.
  destruct (find _ _) eqn:Hf; [reflexivity|].
  rewrite (find_None_existsb _ _ Hf), orb_false_r. reflexivity.
Qed.

Lemma ensureUser_returned rt deviceToken s u s1 :
  ensureUser rt deviceToken s = (Returned u, s1) ->
  u = resolvedUser rt deviceToken s
  /\ groups s1 = groups s
  /\ groupMembers s1 = groupMembers s
  /\ find (user_by_token deviceToken) (users s1) = Some u
  /\ existsb (user_by_id (user_id u)) (users s1) = true
  /\ (users s1 = users s
      \/ find (user_by_token deviceToken) (users s) = None
         /\ users s1 = (users s ++ [mkUser (newUserId rt) deviceToken None])%list).
Proof.
  rewrite ensureUser_eq. unfold resolvedUser.
  destruct (find _ (users s)) as [u0|] eqn:Hf.
  - intros H. injection H as <- <-. repeat split; auto.
    apply find_some in Hf. apply existsb_exists. exists u0.
    split; [tauto|]. unfold user_by_id. apply String.eqb_refl.
  - destruct (existsb _ _); [discriminate|].
    intros H. injection H as <- <-. simpl. repeat split; auto.
    + rewrite find_app_last, Hf. unfold user_by_token. simpl.
      now rewrite String.eqb_refl.
    + rewrite existsb_app. simpl. unfold user_by_id at 2. simpl.
      rewrite String.eqb_refl. apply orb_true_iff. right. reflexivity.
Qed.

Lemma ensureUser_thrown rt deviceToken s e s1 :
  ensureUser rt deviceToken s = (Thrown e, s1) ->
  s1 = s
  /\ find (user_by_token deviceToken) (users s) = None
  /\ existsb (user_by_id (newUserId rt)) (users s) = true.
Proof.
  rewrite ensureUser_eq.
  destruct (find _ (users s)) as [u0|] eqn:Hf; [discriminate|].
  destruct (existsb _ _) eqn:He; [|discriminate].
  intros H. injection H as _ <-. auto.
Qed.

(** Once resolved, a token resolves to the same user without a write,
    whatever identifiers the runtime would supply. *)
Lemma ensureUser_again rt rt' deviceToken s u s1 :
  ensureUser rt deviceToken s = (Returned u, s1) ->
  ensureUser rt' deviceToken s1 = (Returned u, s1).
Proof.
  intros H. apply ensureUser_returned in H.
  destruct H as (_ & _ & _ & Hf & _).
  now rewrite ensureUser_eq, Hf.
Qed.

Lemma group_findUnique_groups inviteCode s s1 :
  groups s1 = groups s ->
  group_findUnique inviteCode s1 = group_findUnique inviteCode s.
Proof. unfold group_findUnique. now intros ->. Qed.

Lemma group_findUnique_stored inviteCode s g :
  group_findUnique inviteCode s = Some g ->
  In g (groups s) /\ group_inviteCode g = inviteCode
  /\ existsb (group_by_id (group_id g)) (groups s) = true.
Proof.
  unfold group_findUnique. intros H. apply find_some in H.
  destruct H as [Hin Hc]. apply String.eqb_eq in Hc. repeat split; auto.
  apply existsb_exists. exists g. split; [exact Hin|].
  unfold group_by_id. apply String.eqb_refl.
Qed.

Lemma group_members_members g s s1 :
  groupMembers s1 = groupMembers s -> group_members g s1 = group_members g s.
Proof. unfold group_members. now intros ->. Qed.

(** ** The join route, branch by branch *)

Lemma joinGroup_eq rt inviteCode body s :
  joinGroup rt inviteCode body s =
  if negb (truthy (jr_deviceToken body))
  then (errorResponse "deviceToken is required" 400, s)
  else
    match ensureUser rt (str (jr_deviceToken body)) s with
    | (Thrown _, s1) => (internalError, s1)
    | (Returned user, s1) =>
      match group_findUnique inviteCode s with
      | None => (errorResponse "Group not found" 404, s1)
      | Some g =>
        if isGroupExpired (group_expiresAt g) (now rt)
        then (errorResponse "Group invitation has expired" 410, s1)
        else
          match find (member_by_pair (user_id user) (group_id g))
                  (groupMembers s) with
          | Some _ =>
            (errorResponse "User is already a member of this group" 400, s1)
          | None =>
            if existsb (member_by_id (newMemberId rt)) (groupMembers s)
            then (internalError, s1)
            else (joinedResponse g (group_members g s),
                  mkStore (users s1) (groups s)
                    (groupMembers s
                       ++ [mkGroupMember (newMemberId rt) (user_id user)
                             (group_id g)]))
          end
      end
    end.
Proof.
  unfold joinGroup, try_catch.
  destruct (negb (truthy (jr_deviceToken body))); [reflexivity|].
  unfold bind at 1.
  destruct (ensureUser rt (str (jr_deviceToken body)) s) as [[user|e] s1] eqn:He;
    [|reflexivity].
  apply ensureUser_returned in He.
  destruct He as (_ & Hg & Hm & _ & Hu & _).
  unfold bind at 1, group_findUnique_include.
  rewrite (group_findUnique_groups _ _ _ Hg).
  destruct (group_findUnique inviteCode s) as [g|] eqn:Hfind; simpl;
    [|reflexivity].
  destruct (isGroupExpired _ _); [reflexivity|].
  unfold bind at 1, groupMember_findUnique. rewrite Hm.
  destruct (find _ (groupMembers s)) eqn:Hpair; [reflexivity|].
  unfold bind, groupMember_create, ret. rewrite Hm, Hg, Hu.
  rewrite (find_None_existsb _ _ Hpair), orb_false_r.
  destruct (group_findUnique_stored _ _ _ Hfind) as (_ & _ & Hex).
  rewrite Hex. simpl. rewrite (group_members_members _ _ _ Hm).
  destruct (existsb (member_by_id (newMemberId rt)) (groupMembers s));
    reflexivity.
Qed.

Lemma ensureUser_fresh rt deviceToken s :
  existsb (user_by_id (newUserId rt)) (users s) = false ->
  exists s1, ensureUser rt deviceToken s
             = (Returned (resolvedUser rt deviceToken s), s1).
Proof.
  intros Hid. rewrite ensureUser_eq. unfold resolvedUser.
  destruct (find _ _); [eauto|]. rewrite Hid. eauto.
Qed.

(** Without any assumption on the identifiers: a join answers with the
    status of the specification's order, or with 500. *)
Lemma joinGroup_status_or_500 rt inviteCode body s :
  status (fst (joinGroup rt inviteCode body s))
    = claimed_join_status rt inviteCode body s
  \/ status (fst (joinGroup rt inviteCode body s)) = 500.
Proof.
  rewrite joinGroup_eq. unfold claimed_join_status.
  destruct (negb (truthy (jr_deviceToken body))); [now left|].
  destruct (ensureUser _ _ _) as [[user|e] s1] eqn:He; [|now right].
  apply ensureUser_returned in He. destruct He as (-> & _).
  destruct (group_findUnique inviteCode s) as [g|]; [|now left].
  destruct (isGroupExpired _ _); [now left|].
  destruct (find _ _) eqn:Hpair.
  - rewrite (find_Some_existsb _ _ _ Hpair). now left.
  - rewrite (find_None_existsb _ _ Hpair).
    destruct (existsb _ _); [now right | now left].
Qed.

(** C5.  When the store accepts the generated identifiers, the status of a
    join is decided in this order: 400 if [deviceToken] is missing (absent
    or empty); else 404 if no group bears the invite code; else 410 if the
    group is expired; else 400 if a membership row of the resolved user and
    the group exists; else 200, and then exactly one membership row, of that
    user and group, has been appended.  Any other outcome leaves the
    membership rows as they were. *)
Theorem joinGroup_status_order rt inviteCode body s resp s' :
  ids_fresh rt s ->
  joinGroup rt inviteCode body s = (resp, s') ->
  status resp = claimed_join_status rt inviteCode body s
  /\ (status resp = 200 ->
      exists g,
        group_findUnique inviteCode s = Some g
        /\ groupMembers s' =
           (groupMembers s
              ++ [mkGroupMember (newMemberId rt)
                    (user_id (resolvedUser rt (str (jr_deviceToken body)) s))
                    (group_id g)])%list)
  /\ (status resp <> 200 -> groupMembers s' = groupMembers s).
Proof.
  intros (Hu & _ & Hm). rewrite joinGroup_eq. unfold claimed_join_status.
  destruct (negb (truthy (jr_deviceToken body))).
  { intros H; injection H as <- <-. simpl. repeat split; congruence. }
  destruct (ensureUser_fresh rt (str (jr_deviceToken body)) s Hu) as (s1 & He).
  rewrite He. apply ensureUser_returned in He.
  destruct He as (_ & _ & Hmem & _).
  destruct (group_findUnique inviteCode s) as [g|].
  2:{ intros H; injection H as <- <-. simpl. repeat split; congruence. }
  destruct (isGroupExpired _ _).
  { intros H; injection H as <- <-. simpl. repeat split; congruence. }
  destruct (find _ _) eqn:Hpair.
  - rewrite (find_Some_existsb _ _ _ Hpair).
    intros H; injection H as <- <-. simpl. repeat split; congruence.
  - rewrite (find_None_existsb _ _ Hpair), Hm.
    intros H; injection H as <- <-. simpl. repeat split; try congruence.
    intros _. now exists g.
Qed.

Lemma joinGroup_status_order_witness :
  ids_fresh (sampleRuntime 500) sampleStore
  /\ status (fst (joinGroup (sampleRuntime 500) "aaaaaaaa" (joinAs "token-bob")
                    sampleStore)) = 200
  /\ status (fst (joinGroup (sampleRuntime 500) "aaaaaaaa" (joinAs "token-alice")
                    sampleStore)) = 400
  /\ status (fst (joinGroup (sampleRuntime 5000) "aaaaaaaa" (joinAs "token-bob")
                    sampleStore)) = 410
  /\ status (fst (joinGroup (sampleRuntime 500) "zzzzzzzz" (joinAs "token-bob")
                    sampleStore)) = 404
  /\ status (fst (joinGroup (sampleRuntime 500) "aaaaaaaa" (mkJoinGroupRequest None)
                    sampleStore)) = 400.
Proof.
  assert (Hfresh : forall t, ids_fresh (sampleRuntime t) sampleStore)
    by (intros t; repeat split; reflexivity).
  split; [apply Hfresh|].
  split; [|split; [|split; [|split]]].
  - exact (proj1 (joinGroup_status_order (sampleRuntime 500) "aaaaaaaa"
                    (joinAs "token-bob") sampleStore _ _ (Hfresh 500)
                    (surjective_pairing _))).
  - exact (proj1 (joinGroup_status_order (sampleRuntime 500) "aaaaaaaa"
                    (joinAs "token-alice") sampleStore _ _ (Hfresh 500)
                    (surjective_pairing _))).
  - exact (proj1 (joinGroup_status_order (sampleRuntime 5000) "aaaaaaaa"
                    (joinAs "token-bob") sampleStore _ _ (Hfresh 5000)
                    (surjective_pairing _))).
  - exact (proj1 (joinGroup_status_order (sampleRuntime 500) "zzzzzzzz"
                    (joinAs "token-bob") sampleStore _ _ (Hfresh 500)
                    (surjective_pairing _))).
  - exact (proj1 (joinGroup_status_order (sampleRuntime 500) "aaaaaaaa"
                    (mkJoinGroupRequest None) sampleStore _ _ (Hfresh 500)
                    (surjective_pairing _))).
Defined.

(** A join that answers 200 went through every check and appended its row. *)
Lemma joinGroup_200_inv rt inviteCode body s resp s' :
  joinGroup rt inviteCode body s = (resp, s') ->
  status resp = 200 ->
  exists user s1 g,
    truthy (jr_deviceToken body) = true
    /\ ensureUser rt (str (jr_deviceToken body)) s = (Returned user, s1)
    /\ group_findUnique inviteCode s = Some g
    /\ isGroupExpired (group_expiresAt g) (now rt) = false
    /\ find (member_by_pair (user_id user) (group_id g)) (groupMembers s) = None
    /\ resp = joinedResponse g (group_members g s)
    /\ s' = mkStore (users s1) (groups s)
              (groupMembers s
                 ++ [mkGroupMember (newMemberId rt) (user_id user) (group_id g)]).
Proof.
  rewrite joinGroup_eq.
  destruct (truthy (jr_deviceToken body)) eqn:Ht; simpl;
    [|intros H; injection H as <- <-; discriminate].
  destruct (ensureUser _ _ _) as [[user|e] s1] eqn:He;
    [|intros H; injection H as <- <-; discriminate].
  destruct (group_findUnique inviteCode s) as [g|] eqn:Hg;
    [|intros H; injection H as <- <-; discriminate].
  destruct (isGroupExpired _ _) eqn:Hexp;
    [intros H; injection H as <- <-; discriminate|].
  destruct (find _ _) eqn:Hpair;
    [intros H; injection H as <- <-; discriminate|].
  destruct (existsb _ _);
    [intros H; injection H as <- <-; discriminate|].
  intros H; injection H as <- <-. intros _.
  exists user, s1, g. repeat split; auto.
Qed.

(** C7.  The [memberCount] of a successful join is the number of
    membership rows of the group as fetched before the insert, plus one. *)
Theorem joinGroup_memberCount rt inviteCode body s resp s' :
  joinGroup rt inviteCode body s = (resp, s') ->
  status resp = 200 ->
  exists g r,
    group_findUnique inviteCode s = Some g
    /\ payload resp = JoinGroupBody r
    /\ jg_memberCount r = Z.of_nat (List.length (group_members g s)) + 1.
Proof.
  intros H H200.
  destruct (joinGroup_200_inv _ _ _ _ _ _ H H200)
    as (user & s1 & g & _ & _ & Hg & _ & _ & -> & _).
  exists g. eexists. split; [exact Hg | split; reflexivity].
Qed.

Lemma joinGroup_memberCount_witness :
  exists r,
    payload (fst (joinGroup (sampleRuntime 500) "aaaaaaaa" (joinAs "token-bob")
                 sampleStore)) = JoinGroupBody r
    /\ jg_memberCount r = 2.
Proof.
  destruct (joinGroup_memberCount (sampleRuntime 500) "aaaaaaaa"
              (joinAs "token-bob") sampleStore _ _ (surjective_pairing _)
              eq_refl) as (g & r & Hg & Hb & Hc).
  exists r. split; [exact Hb|].
  injection Hg as <-. exact Hc.
Defined.

(** In sequential use the reported count is also the count after the
    insert. *)
Lemma joinGroup_memberCount_after rt inviteCode body s resp s' :
  joinGroup rt inviteCode body s = (resp, s') ->
  status resp = 200 ->
  exists g r,
    group_findUnique inviteCode s' = Some g
    /\ payload resp = JoinGroupBody r
    /\ jg_memberCount r = Z.of_nat (List.length (group_members g s')).
Proof.
  intros H H200.
  destruct (joinGroup_200_inv _ _ _ _ _ _ H H200)
    as (user & s1 & g & _ & _ & Hg & _ & _ & -> & ->).
  exists g. eexists. split; [exact Hg | split; [reflexivity|]].
  unfold group_members. simpl. rewrite filter_app_last.
  unfold member_of_group at 3. cbn [member_groupId].
  rewrite String.eqb_refl, List.length_app. simpl. lia.
Qed.

(** C3.  After a join that answered 200, a second join with the same
    device token on the same group, still not expired when it is served,
    answers 400 and leaves the store, hence the membership rows of the
    group, as the first join left them. *)
Theorem joinGroup_twice rt1 rt2 inviteCode body s r1 s1 g r2 s2 :
  joinGroup rt1 inviteCode body s = (r1, s1) ->
  status r1 = 200 ->
  group_findUnique inviteCode s1 = Some g ->
  isGroupExpired (group_expiresAt g) (now rt2) = false ->
  joinGroup rt2 inviteCode body s1 = (r2, s2) ->
  status r2 = 400
  /\ groupMembers s2 = groupMembers s1
  /\ group_members g s2 = group_members g s1
  /\ s2 = s1.
Proof.
  intros H1 H200 Hg1 Hlive.
  destruct (joinGroup_200_inv _ _ _ _ _ _ H1 H200)
    as (user & s0 & g0 & Ht & He & Hg & _ & Hpair & _ & ->).
  assert (g0 = g) as -> by (unfold group_findUnique in *; simpl in *; congruence).
  rewrite joinGroup_eq, Ht. simpl negb. cbv iota.
  assert (He2 : ensureUser rt2 (str (jr_deviceToken body))
                  (mkStore (users s0) (groups s)
                     (groupMembers s
                        ++ [mkGroupMember (newMemberId rt1) (user_id user)
                              (group_id g)]))
                = (Returned user,
                   mkStore (users s0) (groups s)
                     (groupMembers s
                        ++ [mkGroupMember (newMemberId rt1) (user_id user)
                              (group_id g)]))).
  { apply ensureUser_returned in He. destruct He as (_ & _ & _ & Hf & _).
    rewrite ensureUser_eq. simpl. now rewrite Hf. }
  rewrite He2, Hg1, Hlive. simpl groupMembers.
  rewrite find_app_last, Hpair. unfold member_by_pair at 1. simpl.
  rewrite !String.eqb_refl. simpl.
  intros H; injection H as <- <-. repeat split.
Qed.

Lemma joinGroup_twice_witness :
  exists r1 s1 r2 s2,
    joinGroup (sampleRuntime 500) "aaaaaaaa" (joinAs "token-bob") sampleStore
      = (r1, s1)
    /\ status r1 = 200
    /\ joinGroup (sampleRuntime 600) "aaaaaaaa" (joinAs "token-bob") s1 = (r2, s2)
    /\ status r2 = 400
    /\ groupMembers s2 = groupMembers s1.
Proof.
  eexists _, _, _, _.
  split; [apply surjective_pairing|].
  split; [reflexivity|].
  split; [apply surjective_pairing|].
  pose proof (joinGroup_twice (sampleRuntime 500) (sampleRuntime 600)
                "aaaaaaaa" (joinAs "token-bob") sampleStore _ _ picnic _ _
                (surjective_pairing _) eq_refl eq_refl eq_refl
                (surjective_pairing _)) as H.
  split; [exact (proj1 H) | exact (proj1 (proj2 H))].
Defined.

(** X25.  Should the group expire between two joins with the same device
    token, the first of which answered 200, the second answers 410 rather
    than 400; the store is unchanged all the same. *)
Lemma joinGroup_twice_expired rt1 rt2 inviteCode body s r1 s1 g r2 s2 :
  joinGroup rt1 inviteCode body s = (r1, s1) ->
  status r1 = 200 ->
  group_findUnique inviteCode s1 = Some g ->
  isGroupExpired (group_expiresAt g) (now rt2) = true ->
  joinGroup rt2 inviteCode body s1 = (r2, s2) ->
  status r2 = 410 /\ s2 = s1.
Proof.
  intros H1 H200 Hg1 Hdead.
  destruct (joinGroup_200_inv _ _ _ _ _ _ H1 H200)
    as (user & s0 & g0 & Ht & He & Hg & _ & Hpair & _ & ->).
  rewrite joinGroup_eq, Ht. simpl negb. cbv iota.
  apply ensureUser_returned in He. destruct He as (_ & _ & _ & Hf & _).
  rewrite ensureUser_eq. simpl users. rewrite Hf, Hg1, Hdead.
  intros H; injection H as <- <-. split; reflexivity.
Qed.

(** C10.  A join whose device token has no user row creates that row before
    it looks at the group: when it then answers 404, 410 or 400 the user
    table has grown by the new user (the other tables are untouched), so
    the store is not the one the request found. *)
Theorem joinGroup_error_creates_user rt inviteCode body s resp s' :
  truthy (jr_deviceToken body) = true ->
  find (user_by_token (str (jr_deviceToken body))) (users s) = None ->
  joinGroup rt inviteCode body s = (resp, s') ->
  status resp = 404 \/ status resp = 410 \/ status resp = 400 ->
  users s' = (users s ++ [mkUser (newUserId rt) (str (jr_deviceToken body)) None])%list
  /\ find (user_by_token (str (jr_deviceToken body))) (users s')
     = Some (mkUser (newUserId rt) (str (jr_deviceToken body)) None)
  /\ groups s' = groups s
  /\ groupMembers s' = groupMembers s
  /\ s' <> s.
Proof.
  intros Ht Hnew. rewrite joinGroup_eq, Ht. simpl negb. cbv iota.
  rewrite ensureUser_eq, Hnew.
  assert (Hgrow : forall (l : list User) u, (l ++ [u])%list <> l).
  { intros l u Heq. apply (f_equal (@List.length _)) in Heq.
    rewrite List.length_app in Heq. simpl in Heq. lia. }
  assert (Hfind : find (user_by_token (str (jr_deviceToken body)))
                    (users s ++ [mkUser (newUserId rt) (str (jr_deviceToken body)) None])
                  = Some (mkUser (newUserId rt) (str (jr_deviceToken body)) None)).
  { rewrite find_app_last, Hnew. unfold user_by_token. simpl.
    now rewrite String.eqb_refl. }
  destruct (existsb _ _).
  { intros H; injection H as <- <-. simpl. intros [H|[H|H]]; discriminate. }
  destruct (group_findUnique inviteCode s) as [g|].
  2:{ intros H; injection H as <- <-. intros _. simpl. repeat split; auto.
      intros Heq. apply (f_equal users) in Heq. simpl in Heq.
      exact (Hgrow _ _ Heq). }
  destruct (isGroupExpired _ _).
  { intros H; injection H as <- <-. intros _. simpl. repeat split; auto.
    intros Heq. apply (f_equal users) in Heq. simpl in Heq.
    exact (Hgrow _ _ Heq). }
  simpl user_id.
  destruct (find _ (groupMembers s)).
  { intros H; injection H as <- <-. intros _. simpl. repeat split; auto.
    intros Heq. apply (f_equal users) in Heq. simpl in Heq.
    exact (Hgrow _ _ Heq). }
  destruct (existsb _ _);
    intros H; injection H as <- <-; simpl; intros [H|[H|H]]; discriminate.
Qed.

Lemma joinGroup_error_creates_user_witness :
  status (fst (joinGroup (sampleRuntime 5000) "aaaaaaaa" (joinAs "token-carol")
                 sampleStore)) = 410
  /\ users (snd (joinGroup (sampleRuntime 5000) "aaaaaaaa" (joinAs "token-carol")
                   sampleStore))
     = [alice; bob; mkUser "u-new" "token-carol" None].
Proof.
  split; [reflexivity|].
  exact (proj1 (joinGroup_error_creates_user (sampleRuntime 5000) "aaaaaaaa"
                  (joinAs "token-carol") sampleStore _ _ eq_refl eq_refl
                  (surjective_pairing _) (or_intror (or_introl eq_refl)))).
Defined.

(** ** The read routes and the expiry rule *)

(** Two answers with different statuses are different answers. *)
Ltac differs_by_status :=
  let H := fresh in
  simpl; intros H; apply (f_equal status) in H; lazy in H; discriminate H.

Lemma getGroupDetails_eq rt inviteCode s :
  getGroupDetails rt inviteCode s =
  match group_findUnique inviteCode s with
  | None => (errorResponse "Group not found" 404, s)
  | Some g =>
    if isGroupExpired (group_expiresAt g) (now rt)
    then (expiredResponse, s)
    else (detailsResponse g s, s)
  end.
Proof.
  unfold getGroupDetails, try_catch, bind, group_findUnique_include_users.
  destruct (group_findUnique inviteCode s) as [g|]; simpl; [|reflexivity].
  destruct (isGroupExpired _ _); [reflexivity|].
  unfold ret, detailsResponse. simpl.
  now rewrite List.length_map, map_map.
Qed.

Lemma forallb_snd_map {A B} (f : A -> B) (p : B -> bool) (l : list A) :
  forallb (fun m => p (snd m)) (map (fun a => (a, f a)) l)
  = forallb (fun a => p (f a)) l.
Proof. induction l as [|a l IH]; simpl; [reflexivity | now rewrite IH]. Qed.

Lemma groupLandingPage_eq rt inviteCode s :
  groupLandingPage rt inviteCode s =
  match group_findUnique inviteCode s with
  | None => (htmlResponse GroupNotFoundPage, s)
  | Some g =>
    if isGroupExpired (group_expiresAt g) (now rt)
    then (htmlResponse InvitationExpiredPage, s)
    else (landingResponse g s, s)
  end.
Proof.
  unfold groupLandingPage, try_catch, bind, group_findUnique_include_users.
  destruct (group_findUnique inviteCode s) as [g|]; simpl; [|reflexivity].
  destruct (isGroupExpired _ _); [reflexivity|].
  unfold landingResponse.
  destruct (group_creator g s) as [creator|]; simpl; [|reflexivity].
  rewrite (forallb_snd_map (fun m => member_user m s)
             (fun o => match o with Some _ => true | None => false end)).
  rewrite map_map. simpl.
  destruct (forallb _ _); reflexivity.
Qed.

Lemma landingResponse_not_expired_page g s :
  landingResponse g s <> htmlResponse InvitationExpiredPage.
Proof.
  unfold landingResponse.
  destruct (group_creator g s); [|discriminate].
  destruct (forallb _ _); discriminate.
Qed.

Lemma isGroupExpired_iff expiresAt current :
  isGroupExpired expiresAt current = true <-> set_and_past expiresAt current.
Proof.
  unfold isGroupExpired, set_and_past. destruct expiresAt as [t|].
  - rewrite Z.ltb_lt. split.
    + intros H. now exists t.
    + intros (t' & Ht' & Hlt). now injection Ht' as ->.
  - split; [discriminate|]. intros (t & Ht & _). discriminate.
Qed.

(** C1.  The join, details and landing-page routes judge a group by one
    rule, evaluated at the clock reading of the request: each gives its
    answer for an expired group if and only if [expiresAt] is set and
    strictly less than the current time (for the join: once the device
    token has resolved to a user).  A group whose [expiresAt] is unset is
    judged expired at no time, by the test and by each route. *)
Theorem expiry_rule :
  (forall expiresAt current,
     isGroupExpired expiresAt current = true
     <-> set_and_past expiresAt current)
  /\ (forall current, isGroupExpired None current = false)
  /\ (forall rt inviteCode s g,
        group_findUnique inviteCode s = Some g ->
        (fst (getGroupDetails rt inviteCode s) = expiredResponse
         <-> set_and_past (group_expiresAt g) (now rt))
        /\ (fst (groupLandingPage rt inviteCode s)
              = htmlResponse InvitationExpiredPage
            <-> set_and_past (group_expiresAt g) (now rt))
        /\ (forall body user s1,
              truthy (jr_deviceToken body) = true ->
              ensureUser rt (str (jr_deviceToken body)) s = (Returned user, s1) ->
              (fst (joinGroup rt inviteCode body s) = expiredResponse
               <-> set_and_past (group_expiresAt g) (now rt))))
  /\ (forall rt inviteCode s g,
        group_findUnique inviteCode s = Some g ->
        group_expiresAt g = None ->
        fst (getGroupDetails rt inviteCode s) <> expiredResponse
        /\ fst (groupLandingPage rt inviteCode s)
             <> htmlResponse InvitationExpiredPage
        /\ forall body, fst (joinGroup rt inviteCode body s) <> expiredResponse).
Proof.
  split; [exact isGroupExpired_iff|]. split; [reflexivity|]. split.
  - intros rt inviteCode s g Hg. split; [|split].
    + rewrite <- isGroupExpired_iff, getGroupDetails_eq, Hg.
      destruct (isGroupExpired _ _); simpl; split;
        (reflexivity || discriminate).
    + rewrite <- isGroupExpired_iff, groupLandingPage_eq, Hg.
      destruct (isGroupExpired _ _); simpl; split;
        try reflexivity; try discriminate.
      intros Hpage. now apply landingResponse_not_expired_page in Hpage.
    + intros body user s1 Ht He.
      rewrite <- isGroupExpired_iff, joinGroup_eq, Ht, He, Hg.
      simpl negb. cbv iota.
      destruct (isGroupExpired _ _); [split; reflexivity|].
      split; [|discriminate].
      destruct (find _ _); [discriminate|].
      destruct (existsb _ _); discriminate.
  - intros rt inviteCode s g Hg Hunset. split; [|split].
    + rewrite getGroupDetails_eq, Hg, Hunset. simpl. discriminate.
    + rewrite groupLandingPage_eq, Hg, Hunset. simpl.
      apply landingResponse_not_expired_page.
    + intros body. rewrite joinGroup_eq, Hg, Hunset. simpl isGroupExpired.
      destruct (negb _); [differs_by_status|].
      destruct (ensureUser _ _ _) as [[user|e] s1]; [|differs_by_status].
      destruct (find _ _); [differs_by_status|].
      destruct (existsb (member_by_id (newMemberId rt)) (groupMembers s));
        differs_by_status.
Qed.

Lemma expiry_rule_witness :
  fst (getGroupDetails (sampleRuntime 1001) "aaaaaaaa" sampleStore)
    = expiredResponse
  /\ fst (groupLandingPage (sampleRuntime 1000) "aaaaaaaa" sampleStore)
       <> htmlResponse InvitationExpiredPage
  /\ fst (joinGroup (sampleRuntime 1001) "aaaaaaaa" (joinAs "token-bob")
            sampleStore) = expiredResponse.
Proof.
  destruct expiry_rule as (_ & _ & H & _).
  destruct (H (sampleRuntime 1001) "aaaaaaaa" sampleStore picnic eq_refl)
    as (Hd & _ & Hj).
  destruct (H (sampleRuntime 1000) "aaaaaaaa" sampleStore picnic eq_refl)
    as (_ & Hl & _).
  split; [|split].
  - apply Hd. exists 1000. split; [reflexivity | reflexivity].
  - intros Hpage. apply Hl in Hpage. destruct Hpage as (t & Ht & Hlt).
    injection Ht as <-. discriminate Hlt.
  - apply (Hj (joinAs "token-bob") bob sampleStore eq_refl eq_refl).
    exists 1000. split; reflexivity.
Defined.

(** C6 (as the code has it).  For a group whose [expiresAt] is set and in
    the past, whatever its title and description: the details route
    answers 410; the join route answers 410 once the request's device token
    has resolved to a user, and 400 when the token is missing; the landing
    page answers with the Invitation Expired document, whose status is the
    default 200. *)
Theorem expired_group_answers rt inviteCode s g t :
  group_findUnique inviteCode s = Some g ->
  group_expiresAt g = Some t ->
  t < now rt ->
  (fst (getGroupDetails rt inviteCode s) = expiredResponse
   /\ status (fst (getGroupDetails rt inviteCode s)) = 410)
  /\ (forall body user s1,
        truthy (jr_deviceToken body) = true ->
        ensureUser rt (str (jr_deviceToken body)) s = (Returned user, s1) ->
        fst (joinGroup rt inviteCode body s) = expiredResponse
        /\ status (fst (joinGroup rt inviteCode body s)) = 410)
  /\ (forall body,
        truthy (jr_deviceToken body) = false ->
        status (fst (joinGroup rt inviteCode body s)) = 400)
  /\ fst (groupLandingPage rt inviteCode s) = htmlResponse InvitationExpiredPage
  /\ status (fst (groupLandingPage rt inviteCode s)) = 200.
Proof.
  intros Hg He Hlt.
  assert (Hexp : isGroupExpired (group_expiresAt g) (now rt) = true).
  { apply isGroupExpired_iff. now exists t. }
  split; [|split; [|split]].
  - rewrite getGroupDetails_eq, Hg, Hexp. split; reflexivity.
  - intros body user s1 Ht Hu.
    rewrite joinGroup_eq, Ht, Hu, Hg, Hexp. split; reflexivity.
  - intros body Ht. now rewrite joinGroup_eq, Ht.
  - rewrite groupLandingPage_eq, Hg, Hexp. split; reflexivity.
Qed.

Lemma expired_group_answers_witness :
  status (fst (getGroupDetails (sampleRuntime 2000) "aaaaaaaa" sampleStore)) = 410
  /\ status (fst (joinGroup (sampleRuntime 2000) "aaaaaaaa" (joinAs "token-bob")
                    sampleStore)) = 410
  /\ status (fst (groupLandingPage (sampleRuntime 2000) "aaaaaaaa" sampleStore))
     = 200.
Proof.
  pose proof (expired_group_answers (sampleRuntime 2000) "aaaaaaaa" sampleStore
                picnic 1000 eq_refl eq_refl eq_refl) as (Hd & Hj & _ & _ & Hl).
  split; [exact (proj2 Hd)|]. split; [|exact Hl].
  exact (proj2 (Hj (joinAs "token-bob") bob sampleStore eq_refl eq_refl)).
Defined.

(** The claim that every path answers 410 fails on the landing page. *)
Lemma landing_page_expired_not_410 :
  ~ (forall rt inviteCode s g t,
       group_findUnique inviteCode s = Some g ->
       group_expiresAt g = Some t ->
       t < now rt ->
       status (fst (getGroupDetails rt inviteCode s)) = 410
       /\ status (fst (joinGroup rt inviteCode (joinAs "token-bob") s)) = 410
       /\ status (fst (groupLandingPage rt inviteCode s)) = 410).
Proof.
  intros H.
  destruct (H (sampleRuntime 2000) "aaaaaaaa" sampleStore picnic 1000
              eq_refl eq_refl eq_refl) as (_ & _ & Hpage).
  discriminate Hpage.
Qed.

(** ** The create route, branch by branch *)

Lemma createGroup_store_eq rt body user inviteCode s :
  try_catch (createGroup_store rt body user inviteCode) s =
  if negb (storableDate (computeExpiresAt rt (cr_expirationHours body)))
     || existsb (group_by_id (newGroupId rt)) (groups s)
     || existsb (group_by_code inviteCode) (groups s)
     || negb (existsb (user_by_id (user_id user)) (users s))
  then (internalError, s)
  else if existsb (member_by_id (newMemberId rt)) (groupMembers s)
          || existsb (member_by_pair (user_id user) (newGroupId rt))
               (groupMembers s)
  then (internalError,
        mkStore (users s)
          (groups s ++ [createdGroup rt body user inviteCode]) (groupMembers s))
  else (createdResponse rt body inviteCode,
        mkStore (users s)
          (groups s ++ [createdGroup rt body user inviteCode])
          (groupMembers s
             ++ [mkGroupMember (newMemberId rt) (user_id user) (newGroupId rt)])).
Proof.
  unfold try_catch, createGroup_store, bind at 1, group_create, createdGroup,
    createdResponse.
  destruct (storableDate (computeExpiresAt rt (cr_expirationHours body)));
    simpl negb; cbv iota; [|reflexivity].
  destruct (computeExpiresAt rt (cr_expirationHours body)) as [[t|]|];
    (destruct (existsb (group_by_id (newGroupId rt)) (groups s)); simpl orb;
       [reflexivity|];
     destruct (existsb (group_by_code inviteCode) (groups s)); simpl orb;
       [reflexivity|];
     destruct (existsb (user_by_id (user_id user)) (users s)) eqn:Hu;
       simpl negb; cbv iota; [|reflexivity];
     unfold bind, groupMember_create, ret; simpl;
     destruct (existsb (member_by_id (newMemberId rt)) (groupMembers s));
       simpl orb; [reflexivity|];
     destruct (existsb (member_by_pair (user_id user) (newGroupId rt))
                 (groupMembers s)); simpl orb; [reflexivity|];
     rewrite Hu, existsb_app; simpl; unfold group_by_id at 2; simpl;
     rewrite String.eqb_refl, orb_true_r; reflexivity).
Qed.

(** A create that answers 201 resolved its user, found an unused code and
    appended one group row and one membership row. *)
Lemma createGroup_201_inv fuel rt body s resp s' :
  createGroup fuel rt body s = Some (resp, s') ->
  status resp = 201 ->
  exists user s1 inviteCode,
    truthy (cr_deviceToken body) = true
    /\ truthy (cr_modelId body) = true
    /\ ensureUser rt (str (cr_deviceToken body)) s = (Returned user, s1)
    /\ uniqueInviteCode fuel (random rt) 0 s1 = Some inviteCode
    /\ storableDate (computeExpiresAt rt (cr_expirationHours body)) = true
    /\ existsb (group_by_id (newGroupId rt)) (groups s) = false
    /\ existsb (group_by_code inviteCode) (groups s) = false
    /\ resp = createdResponse rt body inviteCode
    /\ s' = mkStore (users s1)
              (groups s ++ [createdGroup rt body user inviteCode])
              (groupMembers s
                 ++ [mkGroupMember (newMemberId rt) (user_id user)
                       (newGroupId rt)]).
Proof.
  unfold createGroup.
  destruct (truthy (cr_deviceToken body)) eqn:Ht; simpl;
    [|intros H; injection H as <- <-; discriminate].
  destruct (truthy (cr_modelId body)) eqn:Hm; simpl;
    [|intros H; injection H as <- <-; discriminate].
  destruct (ensureUser _ _ _) as [[user|e] s1] eqn:He;
    [|intros H; injection H as <- <-; discriminate].
  destruct (uniqueInviteCode _ _ _ _) as [inviteCode|] eqn:Hc; [|discriminate].
  rewrite createGroup_store_eq.
  pose proof (ensureUser_returned _ _ _ _ _ He) as (_ & Hg & Hmem & _).
  rewrite Hg, Hmem.
  destruct (storableDate _) eqn:Hdate; simpl;
    [|intros H; injection H as <- <-; discriminate].
  destruct (existsb (group_by_id _) _) eqn:Hid; simpl;
    [intros H; injection H as <- <-; discriminate|].
  destruct (existsb (group_by_code _) _) eqn:Hcode; simpl;
    [intros H; injection H as <- <-; discriminate|].
  destruct (negb _); simpl;
    [intros H; injection H as <- <-; discriminate|].
  destruct (_ || _);
    [intros H; injection H as <- <-; discriminate|].
  intros H; injection H as <- <-. intros _.
  exists user, s1, inviteCode. repeat split; auto.
Qed.

Lemma no_member_of_new_group s id :
  members_in_groups s ->
  existsb (group_by_id id) (groups s) = false ->
  filter (member_of_group id) (groupMembers s) = [].
Proof.
  intros Hfk Hnew.
  assert (H : forall m, In m (groupMembers s) -> member_of_group id m = false).
  { intros m Hm. unfold member_of_group.
    destruct (String.eqb_spec (member_groupId m) id) as [Heq|]; [|reflexivity].
    apply Hfk in Hm. rewrite Heq in Hm. congruence. }
  induction (groupMembers s) as [|m l IH]; simpl; [reflexivity|].
  rewrite (H m (or_introl eq_refl)). apply IH.
  intros m' Hm'. apply H. now right.
Qed.

(** C2.  After a create-group request has succeeded (201), the created
    group is stored, the user the device token resolves to is its creator,
    the group has exactly one membership row, that row's [userId] is the
    creator's id, and the response reports [memberCount] 1. *)
Theorem createGroup_one_member fuel rt body s resp s' :
  members_in_groups s ->
  createGroup fuel rt body s = Some (resp, s') ->
  status resp = 201 ->
  exists user group member r,
    find (user_by_token (str (cr_deviceToken body))) (users s') = Some user
    /\ payload resp = CreateGroupBody r
    /\ cg_memberCount r = 1
    /\ group_findUnique (cg_inviteCode r) s' = Some group
    /\ group_id group = cg_groupId r
    /\ group_creatorId group = user_id user
    /\ group_members group s' = [member]
    /\ member_userId member = user_id user.
Proof.
  intros Hfk H H201.
  destruct (createGroup_201_inv _ _ _ _ _ _ H H201)
    as (user & s1 & inviteCode & _ & _ & He & _ & _ & Hid & Hcode & -> & ->).
  apply ensureUser_returned in He. destruct He as (_ & _ & _ & Hf & _).
  exists user, (createdGroup rt body user inviteCode),
    (mkGroupMember (newMemberId rt) (user_id user) (newGroupId rt)).
  eexists. split; [exact Hf|]. split; [reflexivity|]. split; [reflexivity|].
  split; [|split; [reflexivity|split; [reflexivity|split; [|reflexivity]]]].
  - unfold group_findUnique. simpl.
    rewrite find_app_last, (existsb_false_find _ _ Hcode).
    unfold group_by_code. simpl. now rewrite String.eqb_refl.
  - unfold group_members. simpl. rewrite filter_app_last.
    rewrite (no_member_of_new_group _ _ Hfk Hid).
    unfold member_of_group. simpl. now rewrite String.eqb_refl.
Qed.

Lemma sampleStore_members_in_groups : members_in_groups sampleStore.
Proof. intros m [<-|[]]. reflexivity. Qed.

Lemma createGroup_one_member_witness :
  exists resp s' r member,
    createGroup 1 (sampleRuntime 500) (createAs "token-bob" (Some 1)) sampleStore
      = Some (resp, s')
    /\ status resp = 201
    /\ payload resp = CreateGroupBody r
    /\ cg_memberCount r = 1
    /\ filter (member_of_group (cg_groupId r)) (groupMembers s') = [member]
    /\ member_userId member = user_id bob.
Proof.
  eexists _, _.
  destruct (createGroup_one_member 1 (sampleRuntime 500)
              (createAs "token-bob" (Some 1)) sampleStore _ _
              sampleStore_members_in_groups eq_refl eq_refl)
    as (user & group & member & r & Hu & Hp & Hc & _ & Hid & _ & Hm & Hmu).
  exists r, member. injection Hu as <-.
  split; [reflexivity|]. split; [reflexivity|]. split; [exact Hp|].
  split; [exact Hc|]. split; [|exact Hmu].
  rewrite <- Hid. exact Hm.
Defined.

(** C4 (as the code has it).  In the group a successful create stores, and
    in its response, [expiresAt] is the clock reading of the request plus
    [expirationHours] hours whenever [expirationHours] is provided and is
    not zero, of either sign; it is unset, so that the group expires at no
    time, whenever [expirationHours] is absent or zero. *)
Theorem createGroup_expiresAt fuel rt body s resp s' :
  createGroup fuel rt body s = Some (resp, s') ->
  status resp = 201 ->
  exists g r,
    groups s' = (groups s ++ [g])%list
    /\ payload resp = CreateGroupBody r
    /\ group_id g = cg_groupId r
    /\ cg_expiresAt r = group_expiresAt g
    /\ (forall h,
          cr_expirationHours body = Some h -> h <> 0 ->
          group_expiresAt g = Some (now rt + h * 60 * 60 * 1000))
    /\ (cr_expirationHours body = None \/ cr_expirationHours body = Some 0 ->
        group_expiresAt g = None
        /\ forall current, isGroupExpired (group_expiresAt g) current = false).
Proof.
  intros H H201.
  destruct (createGroup_201_inv _ _ _ _ _ _ H H201)
    as (user & s1 & inviteCode & _ & _ & _ & _ & Hdate & _ & _ & -> & ->).
  exists (createdGroup rt body user inviteCode). eexists.
  split; [reflexivity|]. split; [reflexivity|]. split; [reflexivity|].
  split; [reflexivity|]. simpl group_expiresAt.
  unfold computeExpiresAt in *. split.
  - intros h Hb Hh. apply Z.eqb_neq in Hh. rewrite Hb, Hh in Hdate |- *.
    unfold newDate in *.
    destruct (Z.abs _ <=? maxTime); [reflexivity | discriminate Hdate].
  - intros [Hb | Hb]; rewrite Hb; simpl; split; reflexivity.
Qed.

Lemma createGroup_expiresAt_witness :
  exists resp s' g,
    createGroup 1 (sampleRuntime 500) (createAs "token-bob" (Some (-2)))
      sampleStore = Some (resp, s')
    /\ groups s' = [picnic; g]
    /\ group_expiresAt g = Some (-7199500).
Proof.
  destruct (createGroup_expiresAt 1 (sampleRuntime 500)
              (createAs "token-bob" (Some (-2))) sampleStore _ _
              eq_refl eq_refl) as (g & r & Hg & _ & _ & _ & Hset & _).
  eexists _, _, g. split; [reflexivity|]. split; [exact Hg|].
  apply (Hset (-2)); [reflexivity | discriminate].
Defined.

(** Provided but zero, [expirationHours] leaves [expiresAt] unset. *)
Lemma createGroup_zero_hours_unset :
  ~ (forall fuel rt body s resp s' h,
       createGroup fuel rt body s = Some (resp, s') ->
       status resp = 201 ->
       cr_expirationHours body = Some h ->
       exists g,
         In g (groups s')
         /\ group_id g = newGroupId rt
         /\ group_expiresAt g = Some (now rt + h * 60 * 60 * 1000)).
Proof.
  intros H.
  destruct (H 1%nat (sampleRuntime 500) (createAs "token-bob" (Some 0))
              sampleStore _ _ 0 eq_refl eq_refl eq_refl)
    as (g & Hin & Hid & Hexp).
  simpl in Hin. destruct Hin as [<-|[<-|[]]]; discriminate.
Qed.

Lemma no_pair_of_new_group s userId id :
  members_in_groups s ->
  existsb (group_by_id id) (groups s) = false ->
  existsb (member_by_pair userId id) (groupMembers s) = false.
Proof.
  intros Hfk Hnew.
  destruct (existsb _ (groupMembers s)) eqn:He; [|reflexivity].
  apply existsb_exists in He. destruct He as (m & Hm & Hp).
  unfold member_by_pair in Hp. apply andb_prop in Hp. destruct Hp as [_ Hg].
  apply String.eqb_eq in Hg. apply Hfk in Hm. rewrite Hg in Hm. congruence.
Qed.

(** With both fields present, identifiers the store accepts, an expiry date
    the client takes and a round that draws an unused code, the create
    route answers 201 for the code of the first such round. *)
Lemma createGroup_accepts fuel rt body s n :
  truthy (cr_deviceToken body) = true ->
  truthy (cr_modelId body) = true ->
  ids_fresh rt s ->
  members_in_groups s ->
  storableDate (computeExpiresAt rt (cr_expirationHours body)) = true ->
  code_unused (attempt (random rt) 0 n) s ->
  (n < fuel)%nat ->
  exists m s',
    (m <= n)%nat
    /\ code_unused (attempt (random rt) 0 m) s
    /\ (forall j, (j < m)%nat -> ~ code_unused (attempt (random rt) 0 j) s)
    /\ createGroup fuel rt body s
       = Some (createdResponse rt body (attempt (random rt) 0 m), s').
Proof.
  intros Ht Hm (Hu & Hg & Hmem) Hfk Hdate Hfree Hfuel.
  unfold createGroup. rewrite Ht, Hm. simpl.
  destruct (ensureUser_fresh rt (str (cr_deviceToken body)) s Hu) as (s1 & He).
  rewrite He. apply ensureUser_returned in He.
  destruct He as (_ & Hg1 & Hm1 & _ & Hex & _).
  assert (Hfree1 : group_findUnique (attempt (random rt) 0 n) s1 = None).
  { rewrite (group_findUnique_groups _ _ _ Hg1). now apply group_findUnique_None. }
  destruct (first_unused _ _ _ _ Hfree1) as (m & Hmn & Hm0 & Hfirst).
  rewrite (uniqueInviteCode_first _ _ m 0%nat fuel Hfirst Hm0 ltac:(lia)).
  rewrite createGroup_store_eq, Hdate, Hg1, Hm1, Hg, Hex, Hmem.
  rewrite (group_findUnique_groups _ _ _ Hg1) in Hm0.
  assert (Htaken : forall j, (j < m)%nat ->
             ~ code_unused (attempt (random rt) 0 j) s).
  { intros j Hj Hunused. apply (Hfirst j Hj).
    rewrite (group_findUnique_groups _ _ _ Hg1).
    now apply group_findUnique_None. }
  pose proof (proj1 (group_findUnique_None _ _) Hm0) as Hunused.
  unfold group_findUnique in Hm0.
  rewrite (find_None_existsb _ _ Hm0).
  rewrite (no_pair_of_new_group _ _ _ Hfk Hg). simpl.
  exists m. eexists. split; [exact Hmn|]. split; [exact Hunused|].
  split; [exact Htaken | reflexivity].
Qed.

(** X23.  The create route does answer 201: with both fields present,
    identifiers the store accepts, an expiry date the client takes (unset,
    or a valid [Date] of the years 0000 to 9999) and some round of the loop
    drawing an unused code, the route returns (enough fuel gives the
    result) the created response, for an invite code that was unused. *)
Theorem createGroup_succeeds fuel rt body s n :
  truthy (cr_deviceToken body) = true ->
  truthy (cr_modelId body) = true ->
  ids_fresh rt s ->
  members_in_groups s ->
  storableDate (computeExpiresAt rt (cr_expirationHours body)) = true ->
  code_unused (attempt (random rt) 0 n) s ->
  (n < fuel)%nat ->
  exists inviteCode s',
    createGroup fuel rt body s = Some (createdResponse rt body inviteCode, s')
    /\ status (createdResponse rt body inviteCode) = 201
    /\ code_unused inviteCode s.
Proof.
  intros Ht Hm Hids Hfk Hdate Hfree Hfuel.
  destruct (createGroup_accepts fuel rt body s n Ht Hm Hids Hfk Hdate Hfree Hfuel)
    as (m & s' & _ & Hunused & _ & Hc).
  exists (attempt (random rt) 0 m), s'.
  split; [exact Hc|]. split; [reflexivity | exact Hunused].
Qed.

(** ** Examples for the generator and the loop *)

Lemma sampleRandom_in_unit j : unitDouble (sampleRandom j) = true.
Proof.
  unfold sampleRandom.
  pose proof (Nat.mod_upper_bound j 8 ltac:(discriminate)) as H.
  remember (j mod 8)%nat as r eqn:Hr. clear Hr.
  do 8 (destruct r as [|r]; [reflexivity|]).
  lia.
Qed.

Lemma generateInviteCode_shape_witness :
  generateInviteCode sampleRandom 0 = "aejnsw15"
  /\ String.length (generateInviteCode sampleRandom 0) = 8%nat
  /\ forall_chars is_lower_or_digit (generateInviteCode sampleRandom 0) = true.
Proof.
  split; [reflexivity|].
  apply (generateInviteCode_shape sampleRandom 0).
  intros j _. apply sampleRandom_in_unit.
Defined.


(** ** The schema constraints hold in every reachable store *)

Section Keys.
Context {A : Type} (key : A -> string).

Lemma existsb_key_false (l : list A) k :
  existsb (fun a => String.eqb (key a) k) l = false -> ~ In k (map key l).
Proof.
  intros He Hin. apply in_map_iff in Hin. destruct Hin as (a & Hk & Ha).
  assert (Ht : existsb (fun a => String.eqb (key a) k) l = true).
  { apply existsb_exists. exists a. split; [exact Ha|].
    rewrite Hk. apply String.eqb_refl. }
  congruence.
Qed.

Lemma NoDup_keys_snoc (l : list A) a :
  NoDup (map key l) ->
  existsb (fun b => String.eqb (key b) (key a)) l = false ->
  NoDup (map key (l ++ [a])).
Proof.
  intros Hnd He. rewrite map_app. simpl.
  apply NoDup_app; [exact Hnd | repeat constructor; intros [] |].
  intros k Hk [<-|[]]. revert Hk. now apply existsb_key_false.
Qed.
End Keys.

Lemma NoDup_pairs_snoc (l : list GroupMember) m :
  NoDup (map member_pair l) ->
  existsb (member_by_pair (member_userId m) (member_groupId m)) l = false ->
  NoDup (map member_pair (l ++ [m])).
Proof.
  intros Hnd He. rewrite map_app. simpl.
  apply NoDup_app; [exact Hnd | repeat constructor; intros [] |].
  intros k Hk [<-|[]]. apply in_map_iff in Hk. destruct Hk as (m' & Hp & Hm').
  assert (Ht : existsb (member_by_pair (member_userId m) (member_groupId m)) l
               = true).
  { apply existsb_exists. exists m'. split; [exact Hm'|].
    unfold member_pair in Hp. injection Hp as Hu Hg.
    unfold member_by_pair. now rewrite Hu, Hg, !String.eqb_refl. }
  congruence.
Qed.

Lemma existsb_snoc_keep {A} (p : A -> bool) l a :
  existsb p l = true -> existsb p (l ++ [a]) = true.
Proof. intros H. now rewrite existsb_app, H. Qed.

Lemma Consistent_empty : Consistent emptyStore.
Proof.
  constructor; simpl; try constructor; intros ? [].
Qed.

Lemma Consistent_add_user s id deviceToken :
  Consistent s ->
  existsb (user_by_id id) (users s) = false ->
  existsb (user_by_token deviceToken) (users s) = false ->
  Consistent (mkStore (users s ++ [mkUser id deviceToken None]) (groups s)
                (groupMembers s)).
Proof.
  intros [] Hid Htok. constructor; simpl; auto.
  - now apply (NoDup_keys_snoc user_id).
  - now apply (NoDup_keys_snoc user_deviceToken).
  - intros g Hg. apply existsb_snoc_keep. auto.
  - intros m Hm. apply existsb_snoc_keep. auto.
Qed.

Lemma Consistent_add_group s g :
  Consistent s ->
  existsb (group_by_id (group_id g)) (groups s) = false ->
  existsb (group_by_code (group_inviteCode g)) (groups s) = false ->
  existsb (user_by_id (group_creatorId g)) (users s) = true ->
  Consistent (mkStore (users s) (groups s ++ [g]) (groupMembers s)).
Proof.
  intros [] Hid Hcode Hcreator. constructor; simpl; auto.
  - now apply (NoDup_keys_snoc group_id).
  - now apply (NoDup_keys_snoc group_inviteCode).
  - intros g' Hg'. apply in_app_or in Hg'. destruct Hg' as [Hg'|[<-|[]]]; auto.
  - intros m Hm. simpl. apply existsb_snoc_keep. now apply members_group_fk0.
Qed.

Lemma Consistent_add_member s m :
  Consistent s ->
  existsb (member_by_id (member_id m)) (groupMembers s) = false ->
  existsb (member_by_pair (member_userId m) (member_groupId m))
    (groupMembers s) = false ->
  existsb (user_by_id (member_userId m)) (users s) = true ->
  existsb (group_by_id (member_groupId m)) (groups s) = true ->
  Consistent (mkStore (users s) (groups s) (groupMembers s ++ [m])).
Proof.
  intros [] Hid Hpair Huser Hgroup. constructor; simpl; auto.
  - now apply (NoDup_keys_snoc member_id).
  - now apply NoDup_pairs_snoc.
  - intros m' Hm'. apply in_app_or in Hm'. destruct Hm' as [Hm'|[<-|[]]]; auto.
  - intros m' Hm'. simpl in Hm'. apply in_app_or in Hm'. simpl.
    destruct Hm' as [Hm'|[<-|[]]]; auto.
Qed.

(** A branch that answers without a write leaves the store it found. *)
Ltac returns_unchanged :=
  let H := fresh in intros H; injection H as <- <-; assumption.

Lemma ensureUser_Consistent rt deviceToken s r s1 :
  Consistent s ->
  ensureUser rt deviceToken s = (r, s1) ->
  Consistent s1.
Proof.
  intros Hs. rewrite ensureUser_eq.
  destruct (find _ _) eqn:Hf; [returns_unchanged|].
  destruct (existsb _ _) eqn:Hid; intros H; injection H as <- <-; [exact Hs|].
  apply Consistent_add_user; [exact Hs | exact Hid |].
  now apply find_None_existsb.
Qed.

Lemma joinGroup_Consistent rt inviteCode body s resp s' :
  Consistent s ->
  joinGroup rt inviteCode body s = (resp, s') ->
  Consistent s'.
Proof.
  intros Hs. rewrite joinGroup_eq.
  destruct (negb _); [returns_unchanged|].
  destruct (ensureUser _ _ _) as [[user|e] s1] eqn:He.
  2:{ intros H; injection H as <- <-. eapply ensureUser_Consistent; eauto. }
  pose proof (ensureUser_Consistent _ _ _ _ _ Hs He) as Hs1.
  apply ensureUser_returned in He. destruct He as (_ & Hg & Hm & _ & Hu & _).
  destruct (group_findUnique inviteCode s) as [g|] eqn:Hfind;
    [|returns_unchanged].
  destruct (isGroupExpired _ _); [returns_unchanged|].
  destruct (find _ _) eqn:Hpair; [returns_unchanged|].
  destruct (existsb (member_by_id (newMemberId rt)) (groupMembers s)) eqn:Hid;
    intros H; injection H as <- <-; [exact Hs1|].
  rewrite <- Hg, <- Hm.
  apply (Consistent_add_member s1
           (mkGroupMember (newMemberId rt) (user_id user) (group_id g)));
    simpl; auto.
  - now rewrite Hm.
  - rewrite Hm. now apply find_None_existsb.
  - rewrite Hg. now destruct (group_findUnique_stored _ _ _ Hfind) as (_ & _ & ?).
Qed.

Lemma createGroup_Consistent fuel rt body s resp s' :
  Consistent s ->
  createGroup fuel rt body s = Some (resp, s') ->
  Consistent s'.
Proof.
  intros Hs. unfold createGroup.
  destruct (_ || _); [returns_unchanged|].
  destruct (ensureUser _ _ _) as [[user|e] s1] eqn:He.
  2:{ intros H; injection H as <- <-. eapply ensureUser_Consistent; eauto. }
  pose proof (ensureUser_Consistent _ _ _ _ _ Hs He) as Hs1.
  destruct (uniqueInviteCode _ _ _ _) as [inviteCode|]; [|discriminate].
  rewrite createGroup_store_eq.
  destruct (storableDate _); simpl; [|returns_unchanged].
  destruct (existsb (group_by_id _) _) eqn:Hid; simpl;
    [returns_unchanged|].
  destruct (existsb (group_by_code _) _) eqn:Hcode; simpl;
    [returns_unchanged|].
  destruct (existsb (user_by_id _) _) eqn:Hcreator; simpl;
    [|returns_unchanged].
  assert (Hs2 : Consistent
                  (mkStore (users s1)
                     (groups s1 ++ [createdGroup rt body user inviteCode])
                     (groupMembers s1)))
    by (apply Consistent_add_group; auto).
  destruct (existsb (member_by_id _) _) eqn:Hmid; simpl;
    [returns_unchanged|].
  destruct (existsb (member_by_pair _ _) _) eqn:Hpair; simpl;
    intros H; injection H as <- <-; [exact Hs2|].
  apply (Consistent_add_member _
           (mkGroupMember (newMemberId rt) (user_id user) (newGroupId rt)) Hs2);
    simpl; auto.
  rewrite existsb_app. simpl. unfold group_by_id at 2. simpl.
  now rewrite String.eqb_refl, orb_true_r.
Qed.

(** Every store the routes can reach from the empty one satisfies the
    constraints of the schema; in particular its membership rows name
    stored groups. *)
Lemma Reachable_Consistent s : Reachable s -> Consistent s.
Proof.
  induction 1 as [| fuel rt body s resp s' _ IH H | rt code body s resp s' _ IH H].
  - exact Consistent_empty.
  - exact (createGroup_Consistent _ _ _ _ _ _ IH H).
  - exact (joinGroup_Consistent _ _ _ _ _ _ IH H).
Qed.

(** X24.  In a store that satisfies the schema a user created by the
    request is a member of no group: a join whose device token had no user
    row never answers already-a-member. *)
Lemma joinGroup_new_user_not_member rt inviteCode body s :
  Consistent s ->
  truthy (jr_deviceToken body) = true ->
  find (user_by_token (str (jr_deviceToken body))) (users s) = None ->
  fst (joinGroup rt inviteCode body s)
    <> errorResponse "User is already a member of this group" 400.
Proof.
  intros Hs Ht Hnew. rewrite joinGroup_eq, Ht, ensureUser_eq, Hnew.
  simpl negb. cbv iota.
  destruct (existsb _ _) eqn:Hid; [differs_by_status|].
  destruct (group_findUnique inviteCode s) as [g|]; [|differs_by_status].
  destruct (isGroupExpired _ _); [differs_by_status|].
  simpl user_id.
  destruct (find _ (groupMembers s)) as [m|] eqn:Hpair.
  - apply find_some in Hpair. destruct Hpair as [Hm Hp].
    unfold member_by_pair in Hp. apply andb_prop in Hp. destruct Hp as [Hu _].
    apply String.eqb_eq in Hu.
    apply (members_user_fk _ Hs) in Hm. rewrite Hu in Hm. congruence.
  - destruct (existsb (member_by_id (newMemberId rt)) (groupMembers s));
      differs_by_status.
Qed.

(** * Further properties of the code *)

(** ** Rows selected by a unique key *)

Section UniqueKeys.
Context {A : Type} (key : A -> string).

Lemma filter_none (p : A -> bool) (l : list A) :
  (forall a, In a l -> p a = false) -> filter p l = [].
Proof.
  induction l as [|x l IH]; intros H; simpl; [reflexivity|].
  rewrite (H x (or_introl eq_refl)). apply IH. intros a Ha. apply H. now right.
Qed.

Lemma find_key_unique (l : list A) a :
  NoDup (map key l) -> In a l ->
  find (fun x => String.eqb (key x) (key a)) l = Some a.
Proof.
  induction l as [|x l IH]; intros Hnd Hin; [destruct Hin|].
  simpl in Hnd. apply NoDup_cons_iff in Hnd. destruct Hnd as [Hx Hnd].
  simpl. destruct Hin as [->|Hin].
  - now rewrite String.eqb_refl.
  - destruct (String.eqb_spec (key x) (key a)) as [Heq|_]; [|now apply IH].
    exfalso. apply Hx. rewrite Heq. now apply in_map.
Qed.

Lemma filter_key_unique (l : list A) k a :
  NoDup (map key l) ->
  find (fun x => String.eqb (key x) k) l = Some a ->
  filter (fun x => String.eqb (key x) k) l = [a].
Proof.
  induction l as [|x l IH]; intros Hnd Hf; [discriminate|].
  simpl in Hnd. apply NoDup_cons_iff in Hnd. destruct Hnd as [Hx Hnd].
  simpl in *. destruct (String.eqb_spec (key x) k) as [Hk|Hk].
  - injection Hf as <-. f_equal. apply filter_none. intros y Hy.
    destruct (String.eqb_spec (key y) k) as [Hyk|]; [|reflexivity].
    exfalso. apply Hx. rewrite Hk, <- Hyk. now apply in_map.
  - now apply IH.
Qed.

Lemma key_injective (l : list A) a b :
  NoDup (map key l) -> In a l -> In b l -> key a = key b -> a = b.
Proof.
  intros Hnd Ha Hb Hk.
  pose proof (find_key_unique l a Hnd Ha) as Hfa.
  pose proof (find_key_unique l b Hnd Hb) as Hfb.
  rewrite Hk in Hfa. congruence.
Qed.
End UniqueKeys.

(** ** Identity resolution *)

Lemma ensureUser_token rt deviceToken s u s1 :
  ensureUser rt deviceToken s = (Returned u, s1) ->
  user_deviceToken u = deviceToken /\ In u (users s1).
Proof.
  intros H. apply ensureUser_returned in H.
  destruct H as (_ & _ & _ & Hf & _).
  apply find_some in Hf. destruct Hf as [Hin Ht].
  split; [now apply String.eqb_eq in Ht | exact Hin].
Qed.

(** X1.  Once [ensureUser] has returned a user for a device token, looking
    the token up finds that user, the user carries the token, and resolving
    the token again, whatever identifier the runtime would generate,
    returns the same user without writing. *)
Theorem ensureUser_then_lookup rt rt' deviceToken s u s1 :
  ensureUser rt deviceToken s = (Returned u, s1) ->
  user_deviceToken u = deviceToken
  /\ user_findUnique deviceToken s1 = (Returned (Some u), s1)
  /\ ensureUser rt' deviceToken s1 = (Returned u, s1).
Proof.
  intros H. split; [exact (proj1 (ensureUser_token _ _ _ _ _ H))|].
  pose proof (ensureUser_returned _ _ _ _ _ H) as (_ & _ & _ & Hf & _).
  split.
  - unfold user_findUnique. now rewrite Hf.
  - now rewrite ensureUser_eq, Hf.
Qed.

Lemma ensureUser_then_lookup_witness :
  exists u s1,
    ensureUser (sampleRuntime 0) "token-carol" sampleStore = (Returned u, s1)
    /\ user_findUnique "token-carol" s1 = (Returned (Some u), s1)
    /\ ensureUser (sampleRuntime 7) "token-carol" s1 = (Returned u, s1).
Proof.
  eexists _, _. split; [reflexivity|].
  exact (proj2 (ensureUser_then_lookup (sampleRuntime 0) (sampleRuntime 7)
                  "token-carol" sampleStore _ _ eq_refl)).
Defined.

(** X2.  In a store that satisfies the schema, after [ensureUser] has
    returned there is exactly one user row with the device token, the
    returned one, and the store still satisfies the schema: a token never
    gets a second row. *)
Theorem ensureUser_one_row_per_token rt deviceToken s u s1 :
  Consistent s ->
  ensureUser rt deviceToken s = (Returned u, s1) ->
  filter (user_by_token deviceToken) (users s1) = [u]
  /\ Consistent s1.
Proof.
  intros Hs H.
  pose proof (ensureUser_Consistent _ _ _ _ _ Hs H) as Hs1.
  split; [|exact Hs1].
  apply ensureUser_returned in H. destruct H as (_ & _ & _ & Hf & _).
  apply (filter_key_unique user_deviceToken);
    [exact (users_token_unique _ Hs1) | exact Hf].
Qed.

Lemma sampleStore_Consistent : Consistent sampleStore.
Proof.
  constructor; simpl;
    repeat (constructor; [simpl; intuition discriminate|]);
    try constructor.
  - intros g [<-|[]]. reflexivity.
  - intros m [<-|[]]. reflexivity.
  - intros m [<-|[]]. reflexivity.
Qed.

Lemma ensureUser_one_row_per_token_witness :
  filter (user_by_token "token-bob")
    (users (snd (ensureUser (sampleRuntime 0) "token-bob" sampleStore))) = [bob]
  /\ filter (user_by_token "token-carol")
       (users (snd (ensureUser (sampleRuntime 0) "token-carol" sampleStore)))
     = [mkUser "u-new" "token-carol" None].
Proof.
  split.
  - exact (proj1 (ensureUser_one_row_per_token (sampleRuntime 0) "token-bob"
                    sampleStore _ _ sampleStore_Consistent eq_refl)).
  - exact (proj1 (ensureUser_one_row_per_token (sampleRuntime 0) "token-carol"
                    sampleStore _ _ sampleStore_Consistent eq_refl)).
Defined.

(** ** After a group has been created *)

(** The store a successful create leaves behind. *)
Lemma createGroup_201_state fuel rt body s resp s' :
  Consistent s ->
  createGroup fuel rt body s = Some (resp, s') ->
  status resp = 201 ->
  exists user inviteCode,
    resp = createdResponse rt body inviteCode
    /\ truthy (cr_deviceToken body) = true
    /\ find (user_by_token (str (cr_deviceToken body))) (users s') = Some user
    /\ find (user_by_id (user_id user)) (users s') = Some user
    /\ storableDate (computeExpiresAt rt (cr_expirationHours body)) = true
    /\ groups s' = (groups s ++ [createdGroup rt body user inviteCode])%list
    /\ groupMembers s' = (groupMembers s ++ [creatorMembership rt user])%list
    /\ group_findUnique inviteCode s' = Some (createdGroup rt body user inviteCode)
    /\ group_members (createdGroup rt body user inviteCode) s'
       = [creatorMembership rt user]
    /\ Consistent s'.
Proof.
  intros Hs H H201.
  pose proof (createGroup_Consistent _ _ _ _ _ _ Hs H) as Hs'.
  destruct (createGroup_201_inv _ _ _ _ _ _ H H201)
    as (user & s1 & inviteCode & Ht & _ & He & _ & Hdate & Hid & Hcode & -> & ->).
  pose proof (ensureUser_returned _ _ _ _ _ He) as (_ & _ & _ & Hf & _).
  exists user, inviteCode.
  split; [reflexivity|]. split; [exact Ht|]. split; [exact Hf|].
  split.
  { apply (find_key_unique user_id); [exact (users_id_unique _ Hs')|].
    simpl. now apply find_some in Hf. }
  split; [exact Hdate|]. split; [reflexivity|]. split; [reflexivity|].
  split; [|split; [|exact Hs']].
  - unfold group_findUnique. simpl.
    rewrite find_app_last, (existsb_false_find _ _ Hcode).
    unfold group_by_code. simpl. now rewrite String.eqb_refl.
  - unfold group_members. simpl. rewrite filter_app_last.
    rewrite (no_member_of_new_group _ _ (members_group_fk _ Hs) Hid).
    unfold member_of_group, creatorMembership. simpl.
    now rewrite String.eqb_refl.
Qed.


(** X3.  Create then read: once a create has answered 201, the details
    route, asked for the invite code of the response while the group is not
    expired, answers 200 with the same group id, model id and expiry, the
    user the device token resolves to as creator, [memberCount] 1 and that
    user as the only member. *)
Theorem createGroup_then_details fuel rt body s resp s' r rt2 :
  Consistent s ->
  createGroup fuel rt body s = Some (resp, s') ->
  status resp = 201 ->
  payload resp = CreateGroupBody r ->
  isGroupExpired (cg_expiresAt r) (now rt2) = false ->
  exists user d,
    find (user_by_token (str (cr_deviceToken body))) (users s') = Some user
    /\ getGroupDetails rt2 (cg_inviteCode r) s'
       = (jsonResponse (GroupDetailsBody d) 200, s')
    /\ gd_groupId d = cg_groupId r
    /\ gd_inviteCode d = cg_inviteCode r
    /\ gd_modelId d = cg_modelId r
    /\ gd_expiresAt d = cg_expiresAt r
    /\ gd_creator d = Some (select_id_name user)
    /\ gd_memberCount d = 1
    /\ gd_members d = [Some (select_id_name user)].
Proof.
  intros Hs H H201 Hr Hlive.
  destruct (createGroup_201_state _ _ _ _ _ _ Hs H H201)
    as (user & inviteCode & -> & _ & Hf & Hid & _ & _ & _ & Hg & Hm & _).
  injection Hr as <-. simpl in Hlive |- *.
  exists user. eexists. split; [exact Hf|].
  rewrite getGroupDetails_eq, Hg. simpl group_expiresAt. rewrite Hlive.
  unfold detailsResponse. rewrite Hm. simpl.
  unfold group_creator, member_user, creatorMembership. simpl.
  rewrite Hid. simpl. repeat split.
Qed.

Lemma createGroup_then_details_witness :
  exists resp s' d,
    createGroup 1 (sampleRuntime 500) (createAs "token-bob" (Some 1)) sampleStore
      = Some (resp, s')
    /\ fst (getGroupDetails (sampleRuntime 600) "aejnsw15" s')
       = jsonResponse (GroupDetailsBody d) 200
    /\ gd_memberCount d = 1
    /\ gd_members d = [Some (mkUserRef "u-bob" (Some "Bob"))].
Proof.
  destruct (createGroup_then_details 1 (sampleRuntime 500)
              (createAs "token-bob" (Some 1)) sampleStore _ _ _
              (sampleRuntime 600) sampleStore_Consistent eq_refl eq_refl
              eq_refl eq_refl)
    as (user & d & Hu & Hd & _ & _ & _ & _ & _ & Hc & Hm).
  eexists _, _, d. split; [reflexivity|].
  injection Hu as <-.
  split; [exact (f_equal fst Hd)|]. split; [exact Hc | exact Hm].
Defined.




(** The client stores a [Date] of the years 0000 to 9999 only: at clock 0,
    70389528 hours lead to the first millisecond of the year 10000 and
    -17268673 hours to an hour before the year 0000, and the create
    answers 500; -17268672 hours lead to the first millisecond of the year
    0000, and the create answers 201. *)
Lemma createGroup_date_range :
  option_map (fun r => status (fst r))
    (createGroup 1 (sampleRuntime 0) (createAs "token-bob" (Some 70389528))
       sampleStore) = Some 500
  /\ option_map (fun r => status (fst r))
       (createGroup 1 (sampleRuntime 0) (createAs "token-bob" (Some (-17268673)))
          sampleStore) = Some 500
  /\ option_map (fun r => status (fst r))
       (createGroup 1 (sampleRuntime 0) (createAs "token-bob" (Some (-17268672)))
          sampleStore) = Some 201.
Proof. repeat split. Qed.

(** X5.  Create then join by the creator: once a create has answered 201,
    a join on the new invite code with the creator's device token, while
    the group is not expired, answers 400 (already a member) and leaves the
    store unchanged. *)
Theorem createGroup_then_creator_join fuel rt body s resp s' r rt2 :
  Consistent s ->
  createGroup fuel rt body s = Some (resp, s') ->
  status resp = 201 ->
  payload resp = CreateGroupBody r ->
  isGroupExpired (cg_expiresAt r) (now rt2) = false ->
  joinGroup rt2 (cg_inviteCode r) (mkJoinGroupRequest (cr_deviceToken body)) s'
  = (alreadyMember, s').
Proof.
  intros Hs H H201 Hr Hlive.
  destruct (createGroup_201_state _ _ _ _ _ _ Hs H H201)
    as (user & inviteCode & -> & Ht & Hf & _ & _ & _ & Hmem & Hg & _ & _).
  injection Hr as <-. simpl in Hlive |- *.
  rewrite joinGroup_eq. simpl jr_deviceToken. rewrite Ht. simpl negb. cbv iota.
  rewrite ensureUser_eq, Hf, Hg. simpl group_expiresAt. rewrite Hlive.
  rewrite Hmem, find_app_last.
  destruct (find _ (groupMembers s)); [reflexivity|].
  unfold member_by_pair, creatorMembership. simpl.
  now rewrite !String.eqb_refl.
Qed.

Lemma createGroup_then_creator_join_witness :
  exists resp s',
    createGroup 1 (sampleRuntime 500) (createAs "token-bob" (Some 1)) sampleStore
      = Some (resp, s')
    /\ joinGroup (sampleRuntime 600) "aejnsw15" (joinAs "token-bob") s'
       = (alreadyMember, s').
Proof.
  eexists _, _. split; [reflexivity|].
  exact (createGroup_then_creator_join 1 (sampleRuntime 500)
           (createAs "token-bob" (Some 1)) sampleStore _ _ _
           (sampleRuntime 600) sampleStore_Consistent eq_refl eq_refl eq_refl
           eq_refl).
Defined.

Lemma find_pair_in_group (l : list GroupMember) userId groupId m :
  find (member_by_pair userId groupId) l = Some m ->
  In m (filter (member_of_group groupId) l) /\ member_userId m = userId.
Proof.
  intros H. apply find_some in H. destruct H as [Hin Hp].
  unfold member_by_pair in Hp. apply andb_prop in Hp. destruct Hp as [Hu Hg].
  split; [|now apply String.eqb_eq].
  apply filter_In. split; [exact Hin | exact Hg].
Qed.

(** X6.  Create then join by someone else: once a create has answered 201,
    a join on the new invite code with another, non-empty device token,
    while the group is not expired and the store accepts the generated
    identifiers, answers 200 with the created group's id and [memberCount]
    2, and the group then has two membership rows. *)
Theorem createGroup_then_other_join fuel rt body s resp s' r rt2 deviceToken2 :
  Consistent s ->
  createGroup fuel rt body s = Some (resp, s') ->
  status resp = 201 ->
  payload resp = CreateGroupBody r ->
  isGroupExpired (cg_expiresAt r) (now rt2) = false ->
  truthy (Some deviceToken2) = true ->
  deviceToken2 <> str (cr_deviceToken body) ->
  ids_fresh rt2 s' ->
  exists j s'' g,
    joinGroup rt2 (cg_inviteCode r) (joinAs deviceToken2) s'
      = (jsonResponse (JoinGroupBody j) 200, s'')
    /\ jg_groupId j = cg_groupId r
    /\ jg_memberCount j = 2
    /\ group_findUnique (cg_inviteCode r) s'' = Some g
    /\ List.length (group_members g s'') = 2%nat.
Proof.
  intros Hs H H201 Hr Hlive Ht2 Hother (Hu2 & _ & Hm2).
  destruct (createGroup_201_state _ _ _ _ _ _ Hs H H201)
    as (user & inviteCode & -> & _ & Hf & Hid & _ & _ & _ & Hg & Hmem & Hs').
  injection Hr as <-. simpl in Hlive |- *.
  rewrite joinGroup_eq. unfold joinAs. simpl jr_deviceToken.
  rewrite Ht2. simpl negb. cbv iota. simpl str.
  destruct (ensureUser_fresh rt2 deviceToken2 s' Hu2) as (s2 & He).
  rewrite He, Hg. simpl group_expiresAt. rewrite Hlive.
  pose proof (ensureUser_Consistent _ _ _ _ _ Hs' He) as Hs2.
  pose proof (ensureUser_token _ _ _ _ _ He) as [Htok2 Hin2].
  pose proof (ensureUser_returned _ _ _ _ _ He) as (_ & _ & _ & _ & _ & Husers).
  assert (Hin1 : In user (users s2)).
  { apply find_some in Hf. destruct Hf as [Hin1 _].
    destruct Husers as [-> | [_ ->]]; [exact Hin1|].
    apply in_or_app. now left. }
  assert (Hne : user_id (resolvedUser rt2 deviceToken2 s') <> user_id user).
  { intros Heq.
    apply (key_injective user_id _ _ _ (users_id_unique _ Hs2) Hin2 Hin1) in Heq.
    apply Hother. rewrite <- Htok2, Heq.
    apply find_some in Hf. destruct Hf as [_ Hf]. now apply String.eqb_eq in Hf. }
  simpl group_id.
  destruct (find _ (groupMembers s')) as [m|] eqn:Hpair.
  { exfalso. apply find_pair_in_group in Hpair. destruct Hpair as [Hin Hu].
    unfold group_members in Hmem. simpl group_id in Hmem. rewrite Hmem in Hin.
    destruct Hin as [<-|[]]. now apply Hne. }
  rewrite Hm2. unfold joinedResponse. rewrite Hmem.
  eexists _, _, (createdGroup rt body user inviteCode).
  split; [reflexivity|]. split; [reflexivity|]. split; [reflexivity|].
  split; [exact Hg|].
  unfold group_members in *. simpl group_id in *. simpl groupMembers.
  rewrite filter_app_last, Hmem. unfold member_of_group at 1. simpl.
  now rewrite String.eqb_refl.
Qed.

Lemma createGroup_then_other_join_witness :
  exists resp s' j s'',
    createGroup 1 (sampleRuntime 500) (createAs "token-bob" (Some 1)) sampleStore
      = Some (resp, s')
    /\ joinGroup (mkRuntime 600 sampleRandom "u-2" "g-2" "m-2") "aejnsw15"
         (joinAs "token-alice") s'
       = (jsonResponse (JoinGroupBody j) 200, s'')
    /\ jg_memberCount j = 2.
Proof.
  destruct (createGroup_then_other_join 1 (sampleRuntime 500)
              (createAs "token-bob" (Some 1)) sampleStore _ _ _
              (mkRuntime 600 sampleRandom "u-2" "g-2" "m-2") "token-alice"
              sampleStore_Consistent eq_refl eq_refl eq_refl eq_refl eq_refl
              ltac:(discriminate) (conj eq_refl (conj eq_refl eq_refl)))
    as (j & s'' & g & Hj & _ & Hc & _).
  eexists _, _, j, s''. split; [reflexivity|]. split; [exact Hj | exact Hc].
Defined.

Lemma group_members_after_insert s us g m :
  member_groupId m = group_id g ->
  group_members g (mkStore us (groups s) (groupMembers s ++ [m]))
  = (group_members g s ++ [m])%list.
Proof.
  intros Hm. unfold group_members. simpl. rewrite filter_app_last.
  unfold member_of_group at 2. now rewrite Hm, String.eqb_refl.
Qed.

(** X7.  Join then read: once a join has answered 200, the details route,
    asked for the same invite code while the group is not expired, reports
    the [memberCount] the join reported, lists as many members as it
    counts, and the user the device token resolves to is among them. *)
Theorem joinGroup_then_details rt inviteCode body s resp s' j g rt2 :
  Consistent s ->
  joinGroup rt inviteCode body s = (resp, s') ->
  status resp = 200 ->
  payload resp = JoinGroupBody j ->
  group_findUnique inviteCode s' = Some g ->
  isGroupExpired (group_expiresAt g) (now rt2) = false ->
  exists user d,
    find (user_by_token (str (jr_deviceToken body))) (users s') = Some user
    /\ getGroupDetails rt2 inviteCode s' = (jsonResponse (GroupDetailsBody d) 200, s')
    /\ gd_groupId d = jg_groupId j
    /\ gd_memberCount d = jg_memberCount j
    /\ Z.of_nat (List.length (gd_members d)) = gd_memberCount d
    /\ In (Some (select_id_name user)) (gd_members d).
Proof.
  intros Hs H H200 Hj Hg' Hlive.
  pose proof (joinGroup_Consistent _ _ _ _ _ _ Hs H) as Hs'.
  destruct (joinGroup_200_inv _ _ _ _ _ _ H H200)
    as (user & s1 & g0 & _ & He & Hg & _ & _ & -> & ->).
  injection Hj as <-.
  assert (g0 = g) as -> by (unfold group_findUnique in *; simpl in *; congruence).
  pose proof (ensureUser_returned _ _ _ _ _ He) as (_ & _ & _ & Hf & _).
  assert (Hid : find (user_by_id (user_id user)) (users s1) = Some user).
  { apply (find_key_unique user_id); [exact (users_id_unique _ Hs')|].
    now apply find_some in Hf. }
  exists user. eexists. split; [exact Hf|].
  rewrite getGroupDetails_eq, Hg', Hlive. unfold detailsResponse.
  rewrite group_members_after_insert by reflexivity.
  split; [reflexivity|].
  cbn [gd_groupId gd_memberCount gd_members jg_groupId jg_memberCount].
  rewrite List.length_map, List.length_app, map_app. simpl List.length.
  split; [reflexivity|]. split; [lia|]. split; [reflexivity|].
  apply in_or_app. right. left.
  unfold member_user. simpl. now rewrite Hid.
Qed.

Lemma joinGroup_then_details_witness :
  exists resp s' d,
    joinGroup (sampleRuntime 500) "aaaaaaaa" (joinAs "token-bob") sampleStore
      = (resp, s')
    /\ getGroupDetails (sampleRuntime 600) "aaaaaaaa" s'
       = (jsonResponse (GroupDetailsBody d) 200, s')
    /\ gd_memberCount d = 2
    /\ In (Some (mkUserRef "u-bob" (Some "Bob"))) (gd_members d).
Proof.
  destruct (joinGroup_then_details (sampleRuntime 500) "aaaaaaaa"
              (joinAs "token-bob") sampleStore _ _ _ picnic (sampleRuntime 600)
              sampleStore_Consistent (surjective_pairing _) eq_refl eq_refl
              eq_refl eq_refl)
    as (user & d & Hu & Hd & _ & Hc & _ & Hin).
  injection Hu as <-.
  eexists _, _, d. split; [apply surjective_pairing|].
  split; [exact Hd|]. split; [exact Hc | exact Hin].
Defined.

(** X8.  No rollback: when the membership insert of a create is refused
    (its generated id is already a primary key) after the group insert went
    through (the group's id is new and its expiry date is one the client
    takes: unset, or a valid [Date] of the years 0000 to 9999), the route
    answers 500, yet the new group row stays in the store, with no
    membership row at all. *)
Theorem createGroup_orphan_group fuel rt body s user s1 inviteCode :
  members_in_groups s ->
  truthy (cr_deviceToken body) = true ->
  truthy (cr_modelId body) = true ->
  ensureUser rt (str (cr_deviceToken body)) s = (Returned user, s1) ->
  uniqueInviteCode fuel (random rt) 0 s1 = Some inviteCode ->
  storableDate (computeExpiresAt rt (cr_expirationHours body)) = true ->
  existsb (group_by_id (newGroupId rt)) (groups s) = false ->
  existsb (member_by_id (newMemberId rt)) (groupMembers s) = true ->
  exists s',
    createGroup fuel rt body s = Some (internalError, s')
    /\ groups s' = (groups s ++ [createdGroup rt body user inviteCode])%list
    /\ groupMembers s' = groupMembers s
    /\ group_findUnique inviteCode s' = Some (createdGroup rt body user inviteCode)
    /\ group_members (createdGroup rt body user inviteCode) s' = [].
Proof.
  intros Hfk Ht Hm He Hc Hdate Hid Hmid.
  unfold createGroup. rewrite Ht, Hm, He, Hc. simpl.
  pose proof (ensureUser_returned _ _ _ _ _ He) as (_ & Hg & Hmem & _ & Hu & _).
  destruct (uniqueInviteCode_inv _ _ _ _ _ Hc) as (n & _ & _ & Hfree & _).
  rewrite (group_findUnique_groups _ _ _ Hg) in Hfree.
  rewrite createGroup_store_eq, Hdate, Hg, Hmem, Hid, Hu, Hmid.
  unfold group_findUnique in Hfree. rewrite (find_None_existsb _ _ Hfree).
  simpl. eexists. split; [reflexivity|]. simpl.
  split; [reflexivity|]. split; [reflexivity|]. split.
  - unfold group_findUnique. simpl. rewrite find_app_last, Hfree.
    unfold group_by_code. simpl. now rewrite String.eqb_refl.
  - unfold group_members. simpl.
    apply (no_member_of_new_group s (newGroupId rt) Hfk Hid).
Qed.

Lemma createGroup_orphan_group_witness :
  exists s',
    createGroup 1 (mkRuntime 500 sampleRandom "u-new" "g-new" "m-1")
      (createAs "token-bob" None) sampleStore = Some (internalError, s')
    /\ groups s'
       = [picnic; mkGroup "g-new" "aejnsw15" "model-1" "u-bob" None None None]
    /\ groupMembers s' = groupMembers sampleStore.
Proof.
  destruct (createGroup_orphan_group 1
              (mkRuntime 500 sampleRandom "u-new" "g-new" "m-1")
              (createAs "token-bob" None) sampleStore bob sampleStore "aejnsw15"
              sampleStore_members_in_groups eq_refl eq_refl eq_refl eq_refl
              eq_refl eq_refl eq_refl)
    as (s' & Hc & Hg & Hm & _).
  exists s'. split; [exact Hc|]. split; [exact Hg | exact Hm].
Defined.

(** ** The list routes *)

Lemma getUserCreatedGroups_eq deviceToken s :
  getUserCreatedGroups deviceToken s =
  match find (user_by_token deviceToken) (users s) with
  | None => (userNotFound, s)
  | Some user =>
    (jsonFetchResponse
       (CreatedGroupsBody
          (map (createdGroupEntry s) (user_createdGroups user s))) 200, s)
  end.
Proof.
  unfold getUserCreatedGroups, try_catch_fetch, bind, user_findUnique.
  destruct (find _ _); reflexivity.
Qed.

Lemma getUserGroups_eq deviceToken s :
  getUserGroups deviceToken s =
  match find (user_by_token deviceToken) (users s) with
  | None => (userNotFound, s)
  | Some user =>
    match allSome (map (userGroupEntry s) (user_memberships user s)) with
    | Some groups => (jsonFetchResponse (UserGroupsBody groups) 200, s)
    | None => (internalErrorFetch, s)
    end
  end.
Proof.
  unfold getUserGroups, try_catch_fetch, bind, user_findUnique.
  destruct (find _ _); [|reflexivity].
  destruct (allSome _); reflexivity.
Qed.

Section AllSome.
Context {A B : Type} (f : A -> option B).

Lemma allSome_map_total (l : list A) :
  (forall a, In a l -> exists b, f a = Some b) ->
  exists r, allSome (map f l) = Some r.
Proof.
  induction l as [|a l IH]; intros H; simpl; [eauto|].
  destruct (H a (or_introl eq_refl)) as (b & ->).
  destruct IH as (r & ->); [intros x Hx; apply H; now right | eauto].
Qed.

Lemma allSome_map_inv (l : list A) r :
  allSome (map f l) = Some r ->
  Forall2 (fun a b => f a = Some b) l r.
Proof.
  revert r. induction l as [|a l IH]; intros r H; simpl in H.
  - injection H as <-. constructor.
  - destruct (f a) as [b|] eqn:Hb; [|discriminate].
    destruct (allSome (map f l)) as [r'|]; [|discriminate].
    injection H as <-. constructor; [exact Hb | now apply IH].
Qed.

Lemma allSome_map_snoc (l : list A) a r b :
  allSome (map f l) = Some r -> f a = Some b ->
  allSome (map f (l ++ [a])) = Some (r ++ [b])%list.
Proof.
  revert r. induction l as [|x l IH]; intros r H Hb; simpl in *.
  - injection H as <-. now rewrite Hb.
  - destruct (f x); [|discriminate].
    destruct (allSome (map f l)) as [r'|]; [|discriminate].
    injection H as <-. now rewrite (IH r' eq_refl Hb).
Qed.
End AllSome.

Lemma Forall2_In_r {A B} (R : A -> B -> Prop) l r b :
  Forall2 R l r -> In b r -> exists a, In a l /\ R a b.
Proof.
  induction 1 as [|x y l r Hxy _ IH]; intros Hin; [destruct Hin|].
  destruct Hin as [<-|Hin]; [exists x; split; [now left | exact Hxy]|].
  destruct (IH Hin) as (a & Ha & HR). exists a. split; [now right | exact HR].
Qed.

Lemma Forall2_In_l {A B} (R : A -> B -> Prop) l r a :
  Forall2 R l r -> In a l -> exists b, In b r /\ R a b.
Proof.
  induction 1 as [|x y l r Hxy _ IH]; intros Hin; [destruct Hin|].
  destruct Hin as [<-|Hin]; [exists y; split; [now left | exact Hxy]|].
  destruct (IH Hin) as (b & Hb & HR). exists b. split; [now right | exact HR].
Qed.

Lemma insertByGroupId_Permutation m l :
  Permutation (insertByGroupId m l) (m :: l).
Proof.
  induction l as [|x l IH]; simpl; [reflexivity|].
  destruct (String.ltb _ _); [|reflexivity].
  rewrite IH. apply perm_swap.
Qed.

(** Ordering the rows keeps each of them, as many times as it was there. *)
Lemma sortByGroupId_Permutation l : Permutation (sortByGroupId l) l.
Proof.
  induction l as [|m l IH]; simpl; [reflexivity|].
  now rewrite insertByGroupId_Permutation, IH.
Qed.

Lemma user_memberships_Permutation u s :
  Permutation (user_memberships u s)
    (filter (member_of_user (user_id u)) (groupMembers s)).
Proof. apply sortByGroupId_Permutation. Qed.

Lemma user_memberships_In u s m :
  In m (user_memberships u s)
  <-> In m (groupMembers s) /\ member_userId m = user_id u.
Proof.
  split.
  - intros H. apply (Permutation_in _ (user_memberships_Permutation u s)) in H.
    apply filter_In in H. destruct H as [Hin Hu].
    split; [exact Hin | now apply String.eqb_eq].
  - intros [Hin Hu].
    apply (Permutation_in _ (Permutation_sym (user_memberships_Permutation u s))).
    apply filter_In. split; [exact Hin | now apply String.eqb_eq].
Qed.

Lemma ltb_asym (a b : string) : String.ltb a b = true -> String.ltb b a = false.
Proof.
  unfold String.ltb. rewrite (String.compare_antisym b a).
  destruct (String.compare a b); simpl; congruence.
Qed.

Lemma insertByGroupId_HdRel x m l :
  byGroupId x m -> HdRel byGroupId x l -> HdRel byGroupId x (insertByGroupId m l).
Proof.
  intros Hxm Hl. destruct l as [|y l]; simpl; [now constructor|].
  destruct (String.ltb _ _); constructor; [now inversion Hl | exact Hxm].
Qed.

Lemma insertByGroupId_Sorted m l :
  Sorted byGroupId l -> Sorted byGroupId (insertByGroupId m l).
Proof.
  induction 1 as [|x l Hl IH Hx]; simpl; [repeat constructor|].
  destruct (String.ltb (member_groupId x) (member_groupId m)) eqn:Hlt.
  - constructor; [exact IH|].
    apply insertByGroupId_HdRel; [|exact Hx].
    unfold byGroupId. now apply ltb_asym.
  - constructor; [now constructor|]. constructor. exact Hlt.
Qed.

(** The memberships of a user come in the order of their [groupId]. *)
Lemma user_memberships_Sorted u s : Sorted byGroupId (user_memberships u s).
Proof.
  unfold user_memberships.
  induction (filter (member_of_user (user_id u)) (groupMembers s)) as [|m l IH];
    simpl; [constructor|].
  now apply insertByGroupId_Sorted.
Qed.

Lemma Forall2_map_eq {A B C} (R : A -> B -> Prop) (g : A -> C) (h : B -> C) l r :
  Forall2 R l r -> (forall a b, R a b -> h b = g a) -> map h r = map g l.
Proof.
  induction 1 as [|x y l r Hxy _ IH]; intros H; simpl; [reflexivity|].
  now rewrite (H _ _ Hxy), IH.
Qed.

Lemma userGroupEntry_inv s m e :
  userGroupEntry s m = Some e ->
  exists g,
    In g (groups s) /\ group_id g = member_groupId m
    /\ ug_groupId e = member_groupId m
    /\ ug_inviteCode e = group_inviteCode g
    /\ ug_expiresAt e = group_expiresAt g
    /\ ug_memberCount e = Z.of_nat (List.length (group_members g s)).
Proof.
  unfold userGroupEntry, member_group.
  destruct (find _ _) as [g|] eqn:Hf; [|discriminate].
  intros H; injection H as <-. apply find_some in Hf. destruct Hf as [Hin Hid].
  apply String.eqb_eq in Hid. exists g. simpl. repeat split; auto.
Qed.

Lemma userGroupEntry_total s m :
  members_in_groups s -> In m (groupMembers s) ->
  exists e, userGroupEntry s m = Some e.
Proof.
  intros Hfk Hm. apply Hfk in Hm. unfold userGroupEntry, member_group.
  destruct (find _ _) eqn:Hf; [eauto|].
  apply find_None_existsb in Hf. congruence.
Qed.

(** X9.  The created-groups route answers 404 for a device token without a
    user row.  For a known user it answers 200 with a list in which a group
    id occurs if and only if a stored group with that id has the user as
    [creatorId]; expired groups are listed like any other; each element
    reports the group's expiry and its number of membership rows.  The
    store is not changed. *)
Theorem getUserCreatedGroups_exact deviceToken s :
  match find (user_by_token deviceToken) (users s) with
  | None => getUserCreatedGroups deviceToken s = (userNotFound, s)
  | Some user =>
    exists entries,
      getUserCreatedGroups deviceToken s
        = (jsonFetchResponse (CreatedGroupsBody entries) 200, s)
      /\ (forall id,
            In id (map cl_groupId entries)
            <-> exists g, In g (groups s) /\ group_id g = id
                          /\ group_creatorId g = user_id user)
      /\ (forall e,
            In e entries ->
            exists g, In g (groups s) /\ cl_groupId e = group_id g
                      /\ cl_expiresAt e = group_expiresAt g
                      /\ cl_memberCount e
                         = Z.of_nat (List.length (group_members g s)))
  end.
Proof.
  rewrite getUserCreatedGroups_eq.
  destruct (find _ _) as [user|]; [|reflexivity].
  eexists. split; [reflexivity|]. split.
  - intros id. rewrite map_map. simpl. rewrite in_map_iff. split.
    + intros (g & Hid & Hg). apply filter_In in Hg. destruct Hg as [Hg Hc].
      apply String.eqb_eq in Hc. now exists g.
    + intros (g & Hg & Hid & Hc). exists g. split; [exact Hid|].
      apply filter_In. split; [exact Hg|]. now apply String.eqb_eq.
  - intros e He. apply in_map_iff in He. destruct He as (g & <- & Hg).
    apply filter_In in Hg. destruct Hg as [Hg _]. exists g. simpl. auto.
Qed.

(** X10.  In a store whose membership rows name stored groups, the groups
    route of a known user never fails: it answers 200 with one element per
    membership row of the user (the group ids listed are, up to their
    order, those of the user's rows), each for the group that row names,
    whether expired or not, and every listed group reports a [memberCount]
    equal to its number of membership rows, at least 1. *)
Theorem getUserGroups_per_membership deviceToken s user :
  members_in_groups s ->
  find (user_by_token deviceToken) (users s) = Some user ->
  exists entries,
    getUserGroups deviceToken s
      = (jsonFetchResponse (UserGroupsBody entries) 200, s)
    /\ Permutation (map ug_groupId entries)
         (map member_groupId
            (filter (member_of_user (user_id user)) (groupMembers s)))
    /\ (forall e,
          In e entries ->
          exists g, In g (groups s) /\ ug_groupId e = group_id g
                    /\ ug_expiresAt e = group_expiresAt g
                    /\ ug_memberCount e
                       = Z.of_nat (List.length (group_members g s))
                    /\ 1 <= ug_memberCount e).
Proof.
  intros Hfk Hf. rewrite getUserGroups_eq, Hf.
  destruct (allSome_map_total (userGroupEntry s) (user_memberships user s))
    as (entries & Hall).
  { intros m Hm. apply user_memberships_In in Hm. destruct Hm as [Hm _].
    now apply userGroupEntry_total. }
  rewrite Hall. exists entries. split; [reflexivity|].
  apply allSome_map_inv in Hall. split.
  - rewrite (Forall2_map_eq _ member_groupId ug_groupId _ _ Hall).
    + apply Permutation_map, user_memberships_Permutation.
    + intros m e He.
      now destruct (userGroupEntry_inv _ _ _ He) as (g & _ & _ & ? & _).
  - intros e He. destruct (Forall2_In_r _ _ _ _ Hall He) as (m & Hm & Hme).
    destruct (userGroupEntry_inv _ _ _ Hme) as (g & Hg & Hid & Hgid & _ & Hexp & Hc).
    exists g. split; [exact Hg|]. split; [congruence|]. split; [exact Hexp|].
    split; [exact Hc|]. rewrite Hc.
    assert (Hin : In m (group_members g s)).
    { apply user_memberships_In in Hm. destruct Hm as [Hm _].
      apply filter_In. split; [exact Hm|].
      unfold member_of_group. rewrite Hid. apply String.eqb_refl. }
    destruct (group_members g s); [destruct Hin | simpl; lia].
Qed.

Lemma getUserGroups_per_membership_witness :
  exists entries,
    getUserGroups "token-alice" sampleStore
      = (jsonFetchResponse (UserGroupsBody entries) 200, sampleStore)
    /\ map ug_groupId entries = ["g-picnic"].
Proof.
  destruct (getUserGroups_per_membership "token-alice" sampleStore alice
              sampleStore_members_in_groups eq_refl)
    as (entries & Hr & Hids & _).
  exists entries. split; [exact Hr|].
  exact (Permutation_length_1_inv (Permutation_sym Hids)).
Defined.

(** X11.  Create then list: once a create has answered 201, the
    created-groups route of the creator's device token answers 200 with a
    list that contains the new group: same group id, invite code and expiry
    as the create response, and [memberCount] 1. *)
Theorem createGroup_then_created_list fuel rt body s resp s' r :
  Consistent s ->
  createGroup fuel rt body s = Some (resp, s') ->
  status resp = 201 ->
  payload resp = CreateGroupBody r ->
  exists entries e,
    getUserCreatedGroups (str (cr_deviceToken body)) s'
      = (jsonFetchResponse (CreatedGroupsBody entries) 200, s')
    /\ In e entries
    /\ cl_groupId e = cg_groupId r
    /\ cl_inviteCode e = cg_inviteCode r
    /\ cl_expiresAt e = cg_expiresAt r
    /\ cl_memberCount e = 1.
Proof.
  intros Hs H H201 Hr.
  destruct (createGroup_201_state _ _ _ _ _ _ Hs H H201)
    as (user & inviteCode & -> & _ & Hf & _ & _ & Hgs & _ & _ & Hm & _).
  injection Hr as <-.
  rewrite getUserCreatedGroups_eq, Hf.
  unfold user_createdGroups. rewrite Hgs, filter_app_last.
  simpl group_creatorId. rewrite String.eqb_refl, map_app. simpl map at 2.
  eexists _, _. split; [reflexivity|].
  split; [apply in_or_app; right; left; reflexivity|].
  unfold createdGroupEntry. rewrite Hm. simpl. repeat split.
Qed.

Lemma createGroup_then_created_list_witness :
  exists resp s' entries e,
    createGroup 1 (sampleRuntime 500) (createAs "token-alice" None) sampleStore
      = Some (resp, s')
    /\ getUserCreatedGroups "token-alice" s'
       = (jsonFetchResponse (CreatedGroupsBody entries) 200, s')
    /\ In e entries
    /\ cl_groupId e = "g-new"
    /\ cl_memberCount e = 1.
Proof.
  destruct (createGroup_then_created_list 1 (sampleRuntime 500)
              (createAs "token-alice" None) sampleStore _ _ _
              sampleStore_Consistent eq_refl eq_refl eq_refl)
    as (entries & e & Hl & Hin & Hid & _ & _ & Hc).
  eexists _, _, entries, e. split; [reflexivity|].
  split; [exact Hl|]. split; [exact Hin|]. split; [exact Hid | exact Hc].
Defined.

(** X12.  Join then list: once a join has answered 200, the groups route
    of the same device token answers 200 with a list that contains the
    joined group, with the [memberCount] the join reported. *)
Theorem joinGroup_then_user_groups rt inviteCode body s resp s' j :
  Consistent s ->
  joinGroup rt inviteCode body s = (resp, s') ->
  status resp = 200 ->
  payload resp = JoinGroupBody j ->
  exists entries e,
    getUserGroups (str (jr_deviceToken body)) s'
      = (jsonFetchResponse (UserGroupsBody entries) 200, s')
    /\ In e entries
    /\ ug_groupId e = jg_groupId j
    /\ ug_inviteCode e = inviteCode
    /\ ug_memberCount e = jg_memberCount j.
Proof.
  intros Hs H H200 Hj.
  pose proof (joinGroup_Consistent _ _ _ _ _ _ Hs H) as Hs'.
  destruct (joinGroup_200_inv _ _ _ _ _ _ H H200)
    as (user & s1 & g & _ & He & Hg & _ & _ & -> & ->).
  injection Hj as <-.
  pose proof (ensureUser_returned _ _ _ _ _ He) as (_ & _ & _ & Hf & _).
  rewrite getUserGroups_eq. simpl users. rewrite Hf.
  set (m := mkGroupMember (newMemberId rt) (user_id user) (group_id g)) in *.
  set (s' := mkStore (users s1) (groups s) (groupMembers s ++ [m])) in *.
  destruct (group_findUnique_stored _ _ _ Hg) as (Hin & Hcode & _).
  assert (Hentry : userGroupEntry s' m
                   = Some (mkUserGroupEntry (group_id g) (group_modelId g)
                             (group_inviteCode g) (group_title g)
                             (group_description g) (group_creator g s')
                             (group_expiresAt g)
                             (Z.of_nat (List.length (group_members g s')))
                             (map (fun m' => member_user m' s')
                                (group_members g s')))).
  { unfold userGroupEntry, member_group. simpl member_groupId. simpl groups.
    unfold group_by_id.
    now rewrite (find_key_unique group_id (groups s) g
                   (groups_id_unique _ Hs) Hin). }
  destruct (allSome_map_total (userGroupEntry s') (user_memberships user s'))
    as (entries & Hall).
  { intros m0 Hm0. apply user_memberships_In in Hm0. destruct Hm0 as [Hm0 _].
    apply userGroupEntry_total; [exact (members_group_fk _ Hs') | exact Hm0]. }
  rewrite Hall. apply allSome_map_inv in Hall.
  assert (Hm : In m (user_memberships user s')).
  { apply user_memberships_In. split; [|reflexivity].
    simpl. apply in_or_app. right. now left. }
  destruct (Forall2_In_l _ _ _ _ Hall Hm) as (e & Hin_e & Hme).
  rewrite Hentry in Hme. injection Hme as <-.
  eexists _, _. split; [reflexivity|]. split; [exact Hin_e|]. simpl.
  split; [reflexivity|]. split; [exact Hcode|].
  unfold s'. rewrite group_members_after_insert by reflexivity.
  rewrite List.length_app. simpl. lia.
Qed.

Lemma joinGroup_then_user_groups_witness :
  exists resp s' entries e,
    joinGroup (sampleRuntime 500) "aaaaaaaa" (joinAs "token-bob") sampleStore
      = (resp, s')
    /\ getUserGroups "token-bob" s'
       = (jsonFetchResponse (UserGroupsBody entries) 200, s')
    /\ In e entries
    /\ ug_groupId e = "g-picnic"
    /\ ug_memberCount e = 2.
Proof.
  destruct (joinGroup_then_user_groups (sampleRuntime 500) "aaaaaaaa"
              (joinAs "token-bob") sampleStore _ _ _ sampleStore_Consistent
              (surjective_pairing _) eq_refl eq_refl)
    as (entries & e & Hl & Hin & Hid & _ & Hc).
  eexists _, _, entries, e. split; [apply surjective_pairing|].
  split; [exact Hl|]. split; [exact Hin|]. split; [exact Hid | exact Hc].
Defined.

(** ** The landing page in a consistent store *)

Lemma existsb_find_Some {A} (p : A -> bool) l :
  existsb p l = true -> exists a, find p l = Some a.
Proof.
  intros H. destruct (find p l) eqn:Hf; [eauto|].
  apply find_None_existsb in Hf. congruence.
Qed.

(** X13.  In a store that satisfies the schema the landing page never
    fails and never answers with an error status: whatever the invite code
    and the clock, it answers an HTML document with status 200 (the Group
    Not Found document for an unknown code, the Invitation Expired document
    for an expired group, the group's page otherwise, titled [Join Group]
    when the title is missing or empty, with one name per membership row)
    and leaves the store unchanged. *)
Theorem groupLandingPage_always_200 rt inviteCode s :
  Consistent s ->
  status (fst (groupLandingPage rt inviteCode s)) = 200
  /\ contentType (fst (groupLandingPage rt inviteCode s)) = "text/html"
  /\ snd (groupLandingPage rt inviteCode s) = s
  /\ (group_findUnique inviteCode s = None ->
      fst (groupLandingPage rt inviteCode s) = htmlResponse GroupNotFoundPage)
  /\ (forall g,
        group_findUnique inviteCode s = Some g ->
        isGroupExpired (group_expiresAt g) (now rt) = true ->
        fst (groupLandingPage rt inviteCode s)
        = htmlResponse InvitationExpiredPage)
  /\ (forall g,
        group_findUnique inviteCode s = Some g ->
        isGroupExpired (group_expiresAt g) (now rt) = false ->
        exists description creatorName memberNames,
          fst (groupLandingPage rt inviteCode s)
          = htmlResponse
              (GroupLandingPage (orElse (group_title g) "Join Group")
                 description (group_modelId g) creatorName memberNames)
          /\ List.length memberNames = List.length (group_members g s)).
Proof.
  intros Hs. rewrite groupLandingPage_eq.
  destruct (group_findUnique inviteCode s) as [g|] eqn:Hg.
  2:{ repeat split; try reflexivity; discriminate. }
  destruct (isGroupExpired _ _) eqn:Hexp.
  { split; [reflexivity|]. split; [reflexivity|]. split; [reflexivity|].
    split; [discriminate|]. split.
    - intros g' _ _. reflexivity.
    - intros g' Hg' Hlive. injection Hg' as <-. congruence. }
  destruct (group_findUnique_stored _ _ _ Hg) as (Hin & _ & _).
  destruct (existsb_find_Some _ _ (groups_creator_fk _ Hs g Hin)) as (c & Hc).
  assert (Hall : forallb (fun m => match member_user m s with
                                   | Some _ => true
                                   | None => false
                                   end) (group_members g s) = true).
  { apply forallb_forall. intros m Hm. apply filter_In in Hm.
    destruct Hm as [Hm _].
    destruct (existsb_find_Some _ _ (members_user_fk _ Hs m Hm)) as (u & Hu).
    unfold member_user. now rewrite Hu. }
  unfold landingResponse, group_creator. rewrite Hc, Hall. simpl.
  split; [reflexivity|]. split; [reflexivity|]. split; [reflexivity|].
  split; [discriminate|]. split.
  - intros g' Hg' Hdead. injection Hg' as <-. congruence.
  - intros g' Hg' _. injection Hg' as <-.
    eexists _, _, _. split; [reflexivity|]. now rewrite List.length_map.
Qed.

Lemma groupLandingPage_always_200_witness :
  status (fst (groupLandingPage (sampleRuntime 500) "aaaaaaaa" sampleStore)) = 200
  /\ status (fst (groupLandingPage (sampleRuntime 500) "zzzzzzzz" sampleStore))
     = 200
  /\ fst (groupLandingPage (sampleRuntime 5000) "aaaaaaaa" sampleStore)
     = htmlResponse InvitationExpiredPage.
Proof.
  split; [|split].
  - exact (proj1 (groupLandingPage_always_200 (sampleRuntime 500) "aaaaaaaa"
                    sampleStore sampleStore_Consistent)).
  - exact (proj1 (groupLandingPage_always_200 (sampleRuntime 500) "zzzzzzzz"
                    sampleStore sampleStore_Consistent)).
  - destruct (groupLandingPage_always_200 (sampleRuntime 5000) "aaaaaaaa"
                sampleStore sampleStore_Consistent)
      as (_ & _ & _ & _ & Hexpired & _).
    exact (Hexpired picnic eq_refl eq_refl).
Defined.

(** ** Strings of the router *)

Lemma startsWith_app (p rest : string) : startsWith (p ++ rest) p = true.
Proof.
  induction p as [|a p IH]; simpl; [reflexivity|].
  now rewrite Ascii.eqb_refl, IH.
Qed.

Lemma startsWith_inv : forall (p s : string),
  startsWith s p = true -> exists rest, s = (p ++ rest)%string.
Proof.
  induction p as [|a p IH]; intros s H; simpl in *; [now exists s|].
  destruct s as [|b s]; [discriminate|].
  apply andb_prop in H. destruct H as [Hab H].
  apply Ascii.eqb_eq in Hab. subst b.
  destruct (IH s H) as (rest & ->). now exists rest.
Qed.

Lemma afterPrefix_app (p rest : string) : afterPrefix (p ++ rest) p = Some rest.
Proof.
  induction p as [|a p IH]; simpl; [reflexivity|].
  now rewrite Ascii.eqb_refl, IH.
Qed.

Lemma afterPrefix_inv : forall (p s rest : string),
  afterPrefix s p = Some rest -> s = (p ++ rest)%string.
Proof.
  induction p as [|a p IH]; intros s rest H; simpl in *; [congruence|].
  destruct s as [|b s]; [discriminate|].
  destruct (Ascii.eqb_spec a b) as [->|]; [|discriminate].
  now rewrite (IH s rest H).
Qed.

Lemma endsWith_app (a b : string) : endsWith (a ++ b) b = true.
Proof.
  induction a as [|x a IH].
  - change ("" ++ b)%string with b.
    destruct b; cbn [endsWith]; now rewrite String.eqb_refl.
  - change (String x a ++ b)%string with (String x (a ++ b)).
    cbn [endsWith]. rewrite IH. apply orb_true_r.
Qed.

Lemma eqb_length (s t : string) :
  String.eqb s t = true -> String.length s = String.length t.
Proof. intros H. apply String.eqb_eq in H. now subst. Qed.

Lemma endsWith_app_short (a b suffix : string) :
  (String.length suffix <= String.length b)%nat ->
  endsWith (a ++ b) suffix = endsWith b suffix.
Proof.
  intros Hlen. induction a as [|x a IH]; [reflexivity|].
  change (String x a ++ b)%string with (String x (a ++ b)).
  cbn [endsWith]. rewrite IH.
  destruct (String.eqb (String x (a ++ b)) suffix) eqn:He; [|reflexivity].
  apply eqb_length in He. simpl in He. rewrite string_length_app in He. lia.
Qed.

Lemma endsWith_slashFree (c t : string) :
  slashFree c = true -> endsWith c (String "/" t) = false.
Proof.
  induction c as [|x c IH]; intros H; [reflexivity|].
  unfold slashFree in H. simpl in H. apply andb_prop in H. destruct H as [Hx Hc].
  cbn [endsWith]. rewrite (IH Hc), orb_false_r.
  apply negb_true_iff in Hx. simpl. now rewrite Hx.
Qed.

Lemma split_segment (c rest : string) :
  slashFree c = true ->
  split (c ++ String "/" rest) "/" = c :: split rest "/".
Proof.
  induction c as [|x c IH]; intros H; simpl.
  - reflexivity.
  - unfold slashFree in H. simpl in H. apply andb_prop in H.
    destruct H as [Hx Hc]. apply negb_true_iff in Hx.
    now rewrite Hx, (IH Hc).
Qed.

Lemma split_last (c : string) :
  slashFree c = true -> split c "/" = [c].
Proof.
  induction c as [|x c IH]; intros H; simpl; [reflexivity|].
  unfold slashFree in H. simpl in H. apply andb_prop in H.
  destruct H as [Hx Hc]. apply negb_true_iff in Hx.
  now rewrite Hx, (IH Hc).
Qed.

Lemma spanSegment_segment (c rest : string) :
  slashFree c = true ->
  spanSegment (c ++ String "/" rest) = (c, String "/" rest).
Proof.
  induction c as [|x c IH]; intros H; simpl; [reflexivity|].
  unfold slashFree in H. simpl in H. apply andb_prop in H.
  destruct H as [Hx Hc]. apply negb_true_iff in Hx.
  now rewrite Hx, (IH Hc).
Qed.

Lemma spanSegment_inv : forall (s segment rest : string),
  spanSegment s = (segment, rest) ->
  s = (segment ++ rest)%string /\ slashFree segment = true.
Proof.
  induction s as [|x s IH]; intros segment rest H; simpl in H.
  - injection H as <- <-. split; reflexivity.
  - destruct (Ascii.eqb x "/") eqn:Hx.
    + injection H as <- <-. split; reflexivity.
    + destruct (spanSegment s) as [seg r]. injection H as <- <-.
      destruct (IH seg r eq_refl) as [-> Hseg]. split; [reflexivity|].
      unfold slashFree in *. simpl. now rewrite Hx, Hseg.
Qed.

(** The fourth element of the split of a path under a two-segment prefix. *)
Lemma split_third (a b c tail : string) :
  slashFree a = true -> slashFree b = true -> slashFree c = true ->
  tail = EmptyString \/ (exists t, tail = String "/" t) ->
  nth_error (split ("/" ++ a ++ "/" ++ b ++ "/" ++ c ++ tail) "/") 3 = Some c.
Proof.
  intros Ha Hb Hc Htail.
  change ("/" ++ a ++ "/" ++ b ++ "/" ++ c ++ tail)%string
    with ("" ++ String "/" (a ++ String "/" (b ++ String "/" (c ++ tail))))%string.
  rewrite split_segment by reflexivity.
  rewrite split_segment by exact Ha.
  rewrite split_segment by exact Hb.
  destruct Htail as [-> | [t ->]].
  - replace (c ++ "")%string with c by (clear; induction c; simpl; congruence).
    now rewrite split_last.
  - now rewrite split_segment.
Qed.

(** ** Routing *)

Lemma matchesJoinPath_iff path :
  matchesJoinPath path = true
  <-> exists code,
        code <> EmptyString /\ slashFree code = true
        /\ path = ("/api/groups/" ++ code ++ "/join")%string.
Proof.
  unfold matchesJoinPath. split.
  - destruct (afterPrefix path "/api/groups/") as [rest|] eqn:Hp; [|discriminate].
    apply afterPrefix_inv in Hp.
    destruct (spanSegment rest) as [segment tail] eqn:Hs.
    apply spanSegment_inv in Hs. destruct Hs as [-> Hfree].
    intros H. apply andb_prop in H. destruct H as [Hne Htail].
    apply String.eqb_eq in Htail. subst tail.
    exists segment. split; [|split; [exact Hfree | exact Hp]].
    intros ->. discriminate Hne.
  - intros (code & Hne & Hfree & ->).
    rewrite afterPrefix_app.
    rewrite (spanSegment_segment code "join" Hfree).
    apply String.eqb_neq in Hne. now rewrite Hne.
Qed.

(** X14.  A POST to [/api/groups/<code>/join], for any non-empty code
    without a slash, is answered by the join route with exactly that code
    and the [deviceToken] of the JSON body. *)
Theorem fetch_join_route decodeURIComponent fuel rt code json s :
  slashFree code = true ->
  code <> EmptyString ->
  fetch decodeURIComponent fuel rt
    (mkRequest "POST" ("/api/groups/" ++ code ++ "/join") (Some json)) s
  = Some (liftRoute
            (joinGroup rt code (mkJoinGroupRequest (cr_deviceToken json)) s)).
Proof.
  intros Hfree Hne.
  assert (H1 : String.eqb ("/api/groups/" ++ code ++ "/join") "/api/groups"
               = false) by reflexivity.
  assert (H2 : matchesJoinPath ("/api/groups/" ++ code ++ "/join") = true).
  { apply matchesJoinPath_iff. now exists code. }
  assert (H3 : nth_error (split ("/api/groups/" ++ code ++ "/join") "/") 3
               = Some code).
  { exact (split_third "api" "groups" code "/join" eq_refl eq_refl Hfree
             (or_intror (ex_intro _ "join" eq_refl))). }
  unfold fetch. cbn [req_method req_path req_json].
  rewrite H1, H2, H3. reflexivity.
Qed.

Lemma fetch_join_route_witness :
  fetch (fun t => Some t) 0 (sampleRuntime 500)
    (mkRequest "POST" "/api/groups/aaaaaaaa/join" (Some (createAs "token-bob" None)))
    sampleStore
  = Some (liftRoute
            (joinGroup (sampleRuntime 500) "aaaaaaaa" (joinAs "token-bob")
               sampleStore)).
Proof.
  exact (fetch_join_route (fun t => Some t) 0 (sampleRuntime 500) "aaaaaaaa"
           (createAs "token-bob" None) sampleStore eq_refl ltac:(discriminate)).
Defined.

(** X15.  A POST to any path other than [/api/groups] that is not of the
    form [/api/groups/<code>/join] with a non-empty code without a slash
    (an empty code, a code with a slash, a trailing segment) is answered
    404 Endpoint not found, and the store is left unchanged. *)
Theorem fetch_POST_elsewhere fuel decodeURIComponent rt path json s :
  path <> "/api/groups" ->
  ~ (exists code,
       code <> EmptyString /\ slashFree code = true
       /\ path = ("/api/groups/" ++ code ++ "/join")%string) ->
  fetch decodeURIComponent fuel rt (mkRequest "POST" path json) s
  = Some (notFound, s).
Proof.
  intros Hp Hj. apply String.eqb_neq in Hp.
  assert (Hm : matchesJoinPath path = false).
  { destruct (matchesJoinPath path) eqn:Hm; [|reflexivity].
    exfalso. apply Hj. now apply matchesJoinPath_iff. }
  unfold fetch. cbn [req_method req_path req_json].
  rewrite Hp, Hm. reflexivity.
Qed.

Lemma fetch_POST_elsewhere_witness :
  fetch (fun t => Some t) 0 (sampleRuntime 500)
    (mkRequest "POST" "/api/groups//join" (Some (createAs "token-bob" None)))
    sampleStore
  = Some (notFound, sampleStore).
Proof.
  apply fetch_POST_elsewhere; [discriminate|].
  intros (code & Hne & _ & Hpath). apply Hne.
  apply (f_equal String.length) in Hpath. simpl in Hpath.
  rewrite string_length_app in Hpath.
  destruct code; [reflexivity | simpl in Hpath; lia].
Defined.

(** X16.  A GET to [/api/groups/<code>], for any code without a slash, is
    answered by the details route with exactly that code, except for the
    code [join]: that path ends in [/join], no route takes it, and the
    answer is 404 Endpoint not found. *)
Theorem fetch_details_route decodeURIComponent fuel rt code json s :
  slashFree code = true ->
  fetch decodeURIComponent fuel rt
    (mkRequest "GET" ("/api/groups/" ++ code) json) s
  = if String.eqb code "join" then Some (notFound, s)
    else Some (liftRoute (getGroupDetails rt code s)).
Proof.
  intros Hfree.
  assert (H1 : startsWith ("/api/groups/" ++ code) "/api/groups/" = true)
    by apply startsWith_app.
  assert (H2 : endsWith ("/api/groups/" ++ code) "/join"
               = String.eqb code "join").
  { cbn [append endsWith String.eqb Ascii.eqb Bool.eqb andb orb].
    rewrite (endsWith_slashFree code "join" Hfree). apply orb_false_r. }
  assert (H3 : nth_error (split ("/api/groups/" ++ code) "/") 3 = Some code).
  { pose proof (split_third "api" "groups" code "" eq_refl eq_refl Hfree
                  (or_introl eq_refl)) as H.
    replace (code ++ "")%string with code in H
      by (clear; induction code; simpl; congruence).
    exact H. }
  assert (H4 : startsWith ("/api/groups/" ++ code) "/api/users/" = false)
    by reflexivity.
  assert (H5 : String.eqb ("/api/groups/" ++ code) "/" = false) by reflexivity.
  unfold fetch. cbn [req_method req_path req_json].
  rewrite H1, H2, H3, H4, H5.
  destruct (String.eqb code "join"); reflexivity.
Qed.

Lemma in_code_space_slashFree code :
  forall_chars is_lower_or_digit code = true -> slashFree code = true.
Proof.
  unfold slashFree. induction code as [|c code IH]; simpl; [reflexivity|].
  intros H. apply andb_prop in H. destruct H as [Hc H].
  rewrite (IH H), andb_true_r.
  destruct c as [[] [] [] [] [] [] [] []]; try reflexivity; discriminate Hc.
Qed.

Lemma fetch_details_route_witness :
  fetch (fun t => Some t) 0 (sampleRuntime 500)
    (mkRequest "GET" "/api/groups/aaaaaaaa" None) sampleStore
  = Some (liftRoute (getGroupDetails (sampleRuntime 500) "aaaaaaaa" sampleStore))
  /\ fetch (fun t => Some t) 0 (sampleRuntime 500)
       (mkRequest "GET" "/api/groups/join" None) sampleStore
     = Some (notFound, sampleStore).
Proof.
  split.
  - exact (fetch_details_route (fun t => Some t) 0 (sampleRuntime 500)
             "aaaaaaaa" None sampleStore eq_refl).
  - exact (fetch_details_route (fun t => Some t) 0 (sampleRuntime 500)
             "join" None sampleStore eq_refl).
Defined.

Lemma fetch_routes_code_space decodeURIComponent fuel rt code json s :
  in_code_space code ->
  fetch decodeURIComponent fuel rt
    (mkRequest "GET" ("/api/groups/" ++ code) None) s
  = Some (liftRoute (getGroupDetails rt code s))
  /\ fetch decodeURIComponent fuel rt
       (mkRequest "POST" ("/api/groups/" ++ code ++ "/join") (Some json)) s
     = Some (liftRoute
               (joinGroup rt code (mkJoinGroupRequest (cr_deviceToken json)) s)).
Proof.
  intros [Hlen Hchars].
  pose proof (in_code_space_slashFree code Hchars) as Hfree.
  assert (Hne : code <> EmptyString) by (intros ->; discriminate Hlen).
  assert (Hnj : String.eqb code "join" = false).
  { apply String.eqb_neq. intros ->. discriminate Hlen. }
  assert (H1 : String.eqb ("/api/groups/" ++ code ++ "/join") "/api/groups"
               = false) by reflexivity.
  assert (H2 : matchesJoinPath ("/api/groups/" ++ code ++ "/join") = true).
  { apply matchesJoinPath_iff. now exists code. }
  assert (H3 : nth_error (split ("/api/groups/" ++ code ++ "/join") "/") 3
               = Some code).
  { exact (split_third "api" "groups" code "/join" eq_refl eq_refl Hfree
             (or_intror (ex_intro _ "join" eq_refl))). }
  assert (G1 : startsWith ("/api/groups/" ++ code) "/api/groups/" = true)
    by apply startsWith_app.
  assert (G2 : endsWith ("/api/groups/" ++ code) "/join" = false).
  { cbn [append endsWith String.eqb Ascii.eqb Bool.eqb andb orb].
    now rewrite (endsWith_slashFree code "join" Hfree), Hnj. }
  assert (G3 : nth_error (split ("/api/groups/" ++ code) "/") 3 = Some code).
  { pose proof (split_third "api" "groups" code "" eq_refl eq_refl Hfree
                  (or_introl eq_refl)) as H.
    replace (code ++ "")%string with code in H
      by (clear; induction code; simpl; congruence).
    exact H. }
  split; unfold fetch; cbn [req_method req_path req_json].
  - now rewrite G1, G2, G3.
  - now rewrite H1, H2, H3.
Qed.

(** X17.  Every invite code the generator returns, whatever
    [Math.random()] draws within its contract, is routable: a GET to
    [/api/groups/<code>] reaches the details route and a POST to
    [/api/groups/<code>/join] reaches the join route, each with that code. *)
Theorem fetch_routes_generated_codes decodeURIComponent fuel rt rnd k json s :
  draws_in_unit rnd k 8 ->
  fetch decodeURIComponent fuel rt
    (mkRequest "GET" ("/api/groups/" ++ generateInviteCode rnd k) None) s
  = Some (liftRoute (getGroupDetails rt (generateInviteCode rnd k) s))
  /\ fetch decodeURIComponent fuel rt
       (mkRequest "POST" ("/api/groups/" ++ generateInviteCode rnd k ++ "/join")
          (Some json)) s
     = Some (liftRoute
               (joinGroup rt (generateInviteCode rnd k)
                  (mkJoinGroupRequest (cr_deviceToken json)) s)).
Proof.
  intros Hd. apply fetch_routes_code_space.
  unfold in_code_space, generateInviteCode.
  destruct (generateInviteCode_loop_spec 8 rnd k "" Hd) as [Hl Ha].
  now rewrite Hl, Ha.
Qed.

Lemma fetch_routes_generated_codes_witness :
  fetch (fun t => Some t) 0 (sampleRuntime 500)
    (mkRequest "GET" "/api/groups/aejnsw15" None) sampleStore
  = Some (liftRoute (getGroupDetails (sampleRuntime 500) "aejnsw15" sampleStore)).
Proof.
  exact (proj1 (fetch_routes_generated_codes (fun t => Some t) 0
                  (sampleRuntime 500) sampleRandom 0 (createAs "token-bob" None)
                  sampleStore (fun j _ => sampleRandom_in_unit j))).
Defined.

(** X18.  A GET to any path that starts with [/api/groups/] and ends in
    [/join] (the path of the join route) is answered 404 Endpoint not
    found: the details route skips it and no other route takes it. *)
Theorem fetch_GET_join_path decodeURIComponent fuel rt path json s :
  startsWith path "/api/groups/" = true ->
  endsWith path "/join" = true ->
  fetch decodeURIComponent fuel rt (mkRequest "GET" path json) s
  = Some (notFound, s).
Proof.
  intros Hstart Hend.
  destruct (startsWith_inv _ _ Hstart) as (rest & ->).
  assert (H4 : startsWith ("/api/groups/" ++ rest) "/api/users/" = false)
    by reflexivity.
  assert (H5 : String.eqb ("/api/groups/" ++ rest) "/" = false) by reflexivity.
  unfold fetch. cbn [req_method req_path req_json].
  rewrite Hstart, Hend, H4, H5. reflexivity.
Qed.

Lemma fetch_GET_join_path_witness :
  fetch (fun t => Some t) 0 (sampleRuntime 500)
    (mkRequest "GET" "/api/groups/aaaaaaaa/join" None) sampleStore
  = Some (notFound, sampleStore).
Proof.
  exact (fetch_GET_join_path (fun t => Some t) 0 (sampleRuntime 500)
           "/api/groups/aaaaaaaa/join" None sampleStore eq_refl eq_refl).
Defined.

(** X19.  The two list routes are told apart by the end of the path: for
    a segment without a slash that [decodeURIComponent] decodes to a device
    token, a GET to [/api/users/<segment>/groups] is answered by the groups
    route and a GET to [/api/users/<segment>/created-groups] by the
    created-groups route, each with the decoded token; when decoding throws
    the answer is 500. *)
Theorem fetch_list_routes decodeURIComponent fuel rt segment json s :
  slashFree segment = true ->
  fetch decodeURIComponent fuel rt
    (mkRequest "GET" ("/api/users/" ++ segment ++ "/groups") json) s
  = match decodeURIComponent segment with
    | Some deviceToken => Some (getUserGroups deviceToken s)
    | None => Some (internalErrorFetch, s)
    end
  /\ fetch decodeURIComponent fuel rt
       (mkRequest "GET" ("/api/users/" ++ segment ++ "/created-groups") json) s
     = match decodeURIComponent segment with
       | Some deviceToken => Some (getUserCreatedGroups deviceToken s)
       | None => Some (internalErrorFetch, s)
       end.
Proof.
  intros Hfree.
  assert (A1 : forall tail,
             startsWith ("/api/users/" ++ segment ++ tail) "/api/groups/"
             = false) by reflexivity.
  assert (A2 : forall tail,
             startsWith ("/api/users/" ++ segment ++ tail) "/api/users/" = true).
  { intros tail. apply startsWith_app. }
  assert (A3 : forall t,
             nth_error (split ("/api/users/" ++ segment ++ String "/" t) "/") 3
             = Some segment).
  { intros t.
    exact (split_third "api" "users" segment (String "/" t) eq_refl eq_refl
             Hfree (or_intror (ex_intro _ t eq_refl))). }
  assert (A4 : endsWith ("/api/users/" ++ segment ++ "/groups") "/groups" = true).
  { change ("/api/users/" ++ segment ++ "/groups")%string
      with ("/api/users/" ++ (segment ++ "/groups"))%string.
    rewrite endsWith_app_short by (rewrite string_length_app; simpl; lia).
    apply endsWith_app. }
  assert (A5 : endsWith ("/api/users/" ++ segment ++ "/created-groups") "/groups"
               = false).
  { change ("/api/users/" ++ segment ++ "/created-groups")%string
      with ("/api/users/" ++ (segment ++ "/created-groups"))%string.
    rewrite endsWith_app_short by (rewrite string_length_app; simpl; lia).
    rewrite endsWith_app_short by (simpl; lia). reflexivity. }
  assert (A6 : endsWith ("/api/users/" ++ segment ++ "/created-groups")
                 "/created-groups" = true).
  { change ("/api/users/" ++ segment ++ "/created-groups")%string
      with ("/api/users/" ++ (segment ++ "/created-groups"))%string.
    rewrite endsWith_app_short by (rewrite string_length_app; simpl; lia).
    apply endsWith_app. }
  split; unfold fetch; cbn [req_method req_path req_json].
  - rewrite A1, A2, A4, (A3 "groups"). reflexivity.
  - rewrite A1, A2, A5, A6, (A3 "created-groups"). reflexivity.
Qed.

Lemma fetch_list_routes_witness :
  fetch (fun t => Some t) 0 (sampleRuntime 500)
    (mkRequest "GET" "/api/users/token-alice/created-groups" None) sampleStore
  = Some (getUserCreatedGroups "token-alice" sampleStore).
Proof.
  exact (proj2 (fetch_list_routes (fun t => Some t) 0 (sampleRuntime 500)
                  "token-alice" None sampleStore eq_refl)).
Defined.

(** ** What a request can do to the store *)

Lemma getGroupDetails_store rt inviteCode s :
  snd (getGroupDetails rt inviteCode s) = s.
Proof.
  rewrite getGroupDetails_eq.
  destruct (group_findUnique inviteCode s); [|reflexivity].
  destruct (isGroupExpired _ _); reflexivity.
Qed.

Lemma getUserGroups_store deviceToken s :
  snd (getUserGroups deviceToken s) = s.
Proof.
  rewrite getUserGroups_eq. destruct (find _ _); [|reflexivity].
  destruct (allSome _); reflexivity.
Qed.

Lemma getUserCreatedGroups_store deviceToken s :
  snd (getUserCreatedGroups deviceToken s) = s.
Proof.
  rewrite getUserCreatedGroups_eq. destruct (find _ _); reflexivity.
Qed.

(** From the result of [fetch], the store it leaves. *)
Ltac final_store H :=
  apply (f_equal (option_map snd)) in H; simpl in H; injection H as <-.

(** X20.  Only POST requests write: for every other method, whatever the
    path (known or unknown codes and tokens included), the store after
    [fetch] is the store before.  In particular no read creates a user
    row. *)
Theorem fetch_only_POST_writes decodeURIComponent fuel rt request s r s' :
  req_method request <> "POST" ->
  fetch decodeURIComponent fuel rt request s = Some (r, s') ->
  s' = s.
Proof.
  intros Hm. apply String.eqb_neq in Hm.
  unfold fetch. rewrite Hm. cbn [andb].
  destruct (String.eqb (req_method request) "OPTIONS");
    [intros H; now injection H as _ <-|].
  destruct (_ && _ && _).
  { destruct (nth_error _ _); intros H; injection H as _ <-;
      [apply getGroupDetails_store | reflexivity]. }
  destruct (_ && _ && _).
  { destruct (nth_error _ _); [|intros H; now injection H as _ <-].
    destruct (decodeURIComponent _); intros H; final_store H;
      [apply getUserGroups_store | reflexivity]. }
  destruct (_ && _ && _).
  { destruct (nth_error _ _); [|intros H; now injection H as _ <-].
    destruct (decodeURIComponent _); intros H; final_store H;
      [apply getUserCreatedGroups_store | reflexivity]. }
  destruct (_ && _); intros H; now injection H as _ <-.
Qed.

Lemma fetch_only_POST_writes_witness :
  snd (getUserGroups "token-nobody" sampleStore) = sampleStore.
Proof.
  exact (fetch_only_POST_writes (fun t => Some t) 0 (sampleRuntime 500)
           (mkRequest "GET" "/api/users/token-nobody/groups" None) sampleStore
           _ _ ltac:(discriminate) eq_refl).
Defined.

Lemma grows_refl s : grows s s.
Proof.
  exists [], [], []. rewrite !app_nil_r. simpl. repeat split; lia.
Qed.

Lemma ensureUser_grows rt deviceToken s o s1 :
  ensureUser rt deviceToken s = (o, s1) ->
  exists us,
    users s1 = (users s ++ us)%list /\ (List.length us <= 1)%nat
    /\ groups s1 = groups s /\ groupMembers s1 = groupMembers s.
Proof.
  rewrite ensureUser_eq.
  destruct (find _ _).
  { intros H; injection H as <- <-. exists []. rewrite app_nil_r.
    simpl. repeat split; lia. }
  destruct (existsb _ _); intros H; injection H as <- <-.
  - exists []. rewrite app_nil_r. simpl. repeat split; lia.
  - eexists [_]. simpl. repeat split; lia.
Qed.

Lemma joinGroup_grows rt inviteCode body s resp s' :
  joinGroup rt inviteCode body s = (resp, s') -> grows s s'.
Proof.
  rewrite joinGroup_eq.
  destruct (negb _); [intros H; injection H as <- <-; apply grows_refl|].
  destruct (ensureUser _ _ _) as [o s1] eqn:He.
  destruct (ensureUser_grows _ _ _ _ _ He) as (us & Hu & Hlen & Hg & Hm).
  assert (Hsame : grows s s1).
  { exists us, [], []. rewrite Hg, Hm, !app_nil_r. simpl. repeat split; auto. }
  destruct o as [user|e]; [|intros H; injection H as <- <-; exact Hsame].
  destruct (group_findUnique inviteCode s) as [g|];
    [|intros H; injection H as <- <-; exact Hsame].
  destruct (isGroupExpired _ _);
    [intros H; injection H as <- <-; exact Hsame|].
  destruct (find _ _); [intros H; injection H as <- <-; exact Hsame|].
  destruct (existsb (member_by_id (newMemberId rt)) (groupMembers s));
    intros H; injection H as <- <-; [exact Hsame|].
  exists us, [], [mkGroupMember (newMemberId rt) (user_id user) (group_id g)].
  simpl. rewrite app_nil_r. repeat split; auto.
Qed.

Lemma createGroup_grows fuel rt body s resp s' :
  createGroup fuel rt body s = Some (resp, s') -> grows s s'.
Proof.
  unfold createGroup.
  destruct (_ || _); [intros H; injection H as <- <-; apply grows_refl|].
  destruct (ensureUser _ _ _) as [o s1] eqn:He.
  destruct (ensureUser_grows _ _ _ _ _ He) as (us & Hu & Hlen & Hg & Hm).
  assert (Hsame : grows s s1).
  { exists us, [], []. rewrite Hg, Hm, !app_nil_r. simpl. repeat split; auto. }
  destruct o as [user|e]; [|intros H; injection H as <- <-; exact Hsame].
  destruct (uniqueInviteCode _ _ _ _) as [inviteCode|]; [|discriminate].
  rewrite createGroup_store_eq.
  destruct (_ || _ || _ || _);
    [intros H; injection H as <- <-; exact Hsame|].
  destruct (_ || _); intros H; injection H as <- <-.
  - exists us, [createdGroup rt body user inviteCode], [].
    simpl. rewrite Hg, Hm, app_nil_r. repeat split; auto.
  - exists us, [createdGroup rt body user inviteCode],
      [mkGroupMember (newMemberId rt) (user_id user) (newGroupId rt)].
    simpl. rewrite Hg, Hm. repeat split; auto.
Qed.

(** X21.  Whatever the request, [fetch] only appends: the rows of every
    table before the request are still there afterwards, unchanged, and at
    most one user, one group and one membership have been added.  No route
    deletes or rewrites a row. *)
Theorem fetch_only_appends decodeURIComponent fuel rt request s r s' :
  fetch decodeURIComponent fuel rt request s = Some (r, s') ->
  grows s s'.
Proof.
  unfold fetch.
  destruct (String.eqb (req_method request) "OPTIONS");
    [intros H; injection H as _ <-; apply grows_refl|].
  destruct (_ && _).
  { destruct (req_json request) as [body|];
      [|intros H; injection H as _ <-; apply grows_refl].
    destruct (createGroup fuel rt body s) as [[resp s0]|] eqn:Hc;
      [|discriminate].
    intros H; injection H as _ <-. exact (createGroup_grows _ _ _ _ _ _ Hc). }
  destruct (_ && _).
  { destruct (nth_error _ _) as [inviteCode|];
      [|intros H; injection H as _ <-; apply grows_refl].
    destruct (req_json request) as [body|];
      [|intros H; injection H as _ <-; apply grows_refl].
    intros H; injection H as _ <-.
    exact (joinGroup_grows _ _ _ _ _ _ (surjective_pairing _)). }
  destruct (_ && _ && _).
  { destruct (nth_error _ _); intros H; injection H as _ <-;
      [rewrite getGroupDetails_store|]; apply grows_refl. }
  destruct (_ && _ && _).
  { destruct (nth_error _ _);
      [|intros H; injection H as _ <-; apply grows_refl].
    destruct (decodeURIComponent _); intros H; final_store H;
      [rewrite getUserGroups_store|]; apply grows_refl. }
  destruct (_ && _ && _).
  { destruct (nth_error _ _);
      [|intros H; injection H as _ <-; apply grows_refl].
    destruct (decodeURIComponent _); intros H; final_store H;
      [rewrite getUserCreatedGroups_store|]; apply grows_refl. }
  destruct (_ && _); intros H; injection H as _ <-; apply grows_refl.
Qed.

Lemma fetch_only_appends_witness :
  exists r s',
    fetch (fun t => Some t) 1 (sampleRuntime 500)
      (mkRequest "POST" "/api/groups" (Some (createAs "token-carol" None)))
      sampleStore = Some (r, s')
    /\ grows sampleStore s'.
Proof.
  eexists _, _. split; [reflexivity|].
  exact (fetch_only_appends (fun t => Some t) 1 (sampleRuntime 500)
           (mkRequest "POST" "/api/groups" (Some (createAs "token-carol" None)))
           sampleStore _ _ eq_refl).
Defined.

(** X26.  The details route reads only the segment after [/api/groups/]:
    a GET to [/api/groups/<code>/<anything>] that does not end in [/join]
    is answered with the details of [<code>], whatever follows it. *)
Theorem fetch_details_ignores_tail decodeURIComponent fuel rt code tail json s :
  slashFree code = true ->
  endsWith ("/api/groups/" ++ code ++ String "/" tail) "/join" = false ->
  fetch decodeURIComponent fuel rt
    (mkRequest "GET" ("/api/groups/" ++ code ++ String "/" tail) json) s
  = Some (liftRoute (getGroupDetails rt code s)).
Proof.
  intros Hfree Hend.
  assert (H1 : startsWith ("/api/groups/" ++ code ++ String "/" tail)
                 "/api/groups/" = true) by apply startsWith_app.
  assert (H3 : nth_error
                 (split ("/api/groups/" ++ code ++ String "/" tail) "/") 3
               = Some code).
  { exact (split_third "api" "groups" code (String "/" tail) eq_refl eq_refl
             Hfree (or_intror (ex_intro _ tail eq_refl))). }
  unfold fetch. cbn [req_method req_path req_json].
  rewrite H1, Hend, H3. reflexivity.
Qed.

Lemma fetch_details_ignores_tail_witness :
  fetch (fun t => Some t) 0 (sampleRuntime 500)
    (mkRequest "GET" "/api/groups/aaaaaaaa/members/all" None) sampleStore
  = Some (liftRoute (getGroupDetails (sampleRuntime 500) "aaaaaaaa" sampleStore)).
Proof.
  exact (fetch_details_ignores_tail (fun t => Some t) 0 (sampleRuntime 500)
           "aaaaaaaa" "members/all" None sampleStore eq_refl eq_refl).
Defined.

(** ** Further examples *)

Lemma createGroup_succeeds_witness :
  exists inviteCode s',
    createGroup 1 (sampleRuntime 500) (createAs "token-carol" (Some 24))
      sampleStore
    = Some (createdResponse (sampleRuntime 500)
              (createAs "token-carol" (Some 24)) inviteCode, s')
    /\ status (createdResponse (sampleRuntime 500)
                 (createAs "token-carol" (Some 24)) inviteCode) = 201
    /\ code_unused inviteCode sampleStore.
Proof.
  apply (createGroup_succeeds 1 (sampleRuntime 500)
           (createAs "token-carol" (Some 24)) sampleStore 0).
  - reflexivity.
  - reflexivity.
  - repeat split; reflexivity.
  - intros m [<-|[]]. reflexivity.
  - reflexivity.
  - intros g [<-|[]]. discriminate.
  - apply Nat.lt_0_1.
Defined.

Lemma joinGroup_new_user_not_member_witness :
  fst (joinGroup (sampleRuntime 500) "aaaaaaaa" (joinAs "token-carol")
         sampleStore)
  <> errorResponse "User is already a member of this group" 400.
Proof.
  apply joinGroup_new_user_not_member;
    [exact sampleStore_Consistent | reflexivity | reflexivity].
Defined.

Lemma joinGroup_twice_expired_witness :
  exists r1 s1 r2 s2,
    joinGroup (sampleRuntime 500) "aaaaaaaa" (joinAs "token-bob") sampleStore
      = (r1, s1)
    /\ status r1 = 200
    /\ joinGroup (sampleRuntime 5000) "aaaaaaaa" (joinAs "token-bob") s1
       = (r2, s2)
    /\ status r2 = 410
    /\ s2 = s1.
Proof.
  eexists _, _, _, _.
  split; [apply surjective_pairing|].
  split; [reflexivity|].
  split; [apply surjective_pairing|].
  exact (joinGroup_twice_expired (sampleRuntime 500) (sampleRuntime 5000)
           "aaaaaaaa" (joinAs "token-bob") sampleStore _ _ picnic _ _
           (surjective_pairing _) eq_refl eq_refl eq_refl
           (surjective_pairing _)).
Defined.
